(** * Frame renderer: draw-call sorting, batching and frame orchestration

    A shallow embedding of [Source/Engine/Renderer/RenderList.h] and
    [Source/Engine/Renderer/Renderer.cpp].

    Conventions.
    - [int32] counters and array indices are [nat]; sort and batch keys are [Z].
    - [float] quantities that the code only compares (camera distance,
      [RenderingPercentage], the motion blur scale) are exact numbers
      ([Z] or [Q]); no rounding is modelled.
    - Functions whose bodies live in files that are not part of the sources
      at hand are either parameters of a [Section] or are modelled from the
      specification; the latter carry a doc comment saying so. *)

From stdpp Require Import base option list sorting numbers gmap.
From Stdlib Require Import QArith Qabs.

Local Open Scope Z_scope.

(** ** Data model (RenderList.h) *)

(** [enum class DrawCallsListType] (RenderList.h:154); [MAX] is the array
    bound and is not a list. *)
Inductive DrawCallsListType :=
  | Depth | GBuffer | GBufferNoDecals | Forward | Distortion | MotionVectors.

#[global] Instance DrawCallsListType_eq_dec : EqDecision DrawCallsListType.
Proof. solve_decision. Defined.

Module DrawCall.
(** Modelled from the spec: [struct DrawCall] is declared in DrawCall.h,
    which is missing.  The record keeps the fields the specification
    names as relevant for sorting and batching: the geometry and material
    references, the sort-relevant distance to the camera and the number of
    instances the call contributes. *)
Record t := Build {
  Geometry : Z;
  Material : Z;
  Distance : Z;
  InstanceCount : nat;
}.
End DrawCall.

Module DrawBatch.
(** [struct DrawBatch] (RenderList.h:192). *)
Record t := Build {
  SortKey : Z;
  StartIndex : nat;
  BatchSize : nat;
  InstanceCount : nat;
}.

(** [bool operator<(const DrawBatch& other) const]. *)
Definition lt (a b : t) : bool := SortKey a <? SortKey b.
End DrawBatch.

Module DrawCallsList.
(** [struct DrawCallsList] (RenderList.h:308). *)
Record t := Build {
  Indices : list nat;
  PreBatchedDrawCalls : list nat;
  Batches : list DrawBatch.t;
  CanUseInstancing : bool;
}.

(** Modelled from the spec: [DrawCallsList::Clear] is only declared; a
    cleared list has all three arrays emptied.  The instancing flag is
    reset to its initial value. *)
Definition Clear (_ : t) : t :=
  {| Indices := []; PreBatchedDrawCalls := []; Batches := [];
     CanUseInstancing := true |}.

(** Modelled from the spec: [DrawCallsList::IsEmpty] is only declared. *)
Definition IsEmpty (l : t) : bool :=
  bool_decide (Indices l = []) && bool_decide (PreBatchedDrawCalls l = []).
End DrawCallsList.

(** ** Sorter / batcher *)

Section Sorter.
(** The batch key of a draw call ([SurfaceDrawCallHandler::GetHash] and the
    hashing around it) and the batching predicate
    ([SurfaceDrawCallHandler::CanBatch]) are declared in RenderList.h:610
    but defined elsewhere: they are parameters. *)
Variable GetHash : DrawCall.t → Z.
Variable CanBatch : DrawCall.t → DrawCall.t → bool.
(** The rule that decides whether a batch sequence can be drawn with
    hardware instancing (it includes the hardware capability flag). *)
Variable InstancingAchievable : list DrawBatch.t → bool.

(** Modelled from the spec: the distance contribution to the sort key;
    "if reverseDistance is true the distance contribution is negated
    before comparison". *)
Definition DistanceContribution (reverseDistance : bool) (dc : DrawCall.t) : Z :=
  if reverseDistance then - DrawCall.Distance dc else DrawCall.Distance dc.

(** Modelled from the spec: the composite sort key of one call.  The
    distance contribution is the significant part, so that a list comes
    out front to back (back to front when reversed); the batch key, as an
    unsigned 32-bit value, breaks ties so that calls that may be batched
    end up next to each other. *)
Definition ComputeSortKey (reverseDistance : bool) (dc : DrawCall.t) : Z :=
  DistanceContribution reverseDistance dc * 2 ^ 32 + GetHash dc `mod` 2 ^ 32.

(** The order used to sort the (index, call) pairs. *)
Definition KeyLe (reverseDistance : bool) (p q : nat * DrawCall.t) : Prop :=
  ComputeSortKey reverseDistance p.2 ≤ ComputeSortKey reverseDistance q.2.

#[global] Instance KeyLe_dec r p q : Decision (KeyLe r p q).
Proof. unfold KeyLe. apply _. Defined.

(** [DrawCalls[list.Indices[i]]] for every entry of the index array;
    [None] when an index is out of range (the array access asserts). *)
Definition Resolve (DrawCalls : list DrawCall.t) (indices : list nat)
  : option (list (nat * DrawCall.t)) :=
  mapM (λ i, c ← DrawCalls !! i; Some (i, c)) indices.

(** Modelled from the spec: the linear scan.  "Accumulate a run while
    consecutive calls share the batch key and CanBatch(a, b) succeeds;
    close the run into a DrawBatch once the predicate fails or the list
    ends."  [start], [size] and [inst] describe the open run, [key] is the
    sort key of its first call and [prev] its last call. *)
Fixpoint Scan (r : bool) (key : Z) (start size inst : nat)
    (prev : DrawCall.t) (rest : list DrawCall.t) : list DrawBatch.t :=
  match rest with
  | [] => [DrawBatch.Build key start size inst]
  | c :: rest' =>
      if bool_decide (GetHash prev = GetHash c) && CanBatch prev c
      then Scan r key start (S size) (inst + DrawCall.InstanceCount c)%nat c rest'
      else DrawBatch.Build key start size inst
           :: Scan r (ComputeSortKey r c) (start + size)%nat 1
                (DrawCall.InstanceCount c) c rest'
  end.

(** "An empty list sorts to empty; a list with a single entry trivially
    forms one batch of size 1." *)
Definition BuildBatches (r : bool) (calls : list DrawCall.t) : list DrawBatch.t :=
  match calls with
  | [] => []
  | c :: rest => Scan r (ComputeSortKey r c) 0 1 (DrawCall.InstanceCount c) c rest
  end.

(** Modelled from the spec: [RenderList::SortDrawCalls] (declared at
    RenderList.h:572, defined in the missing RenderList.cpp).  Sort the
    index array by key ascending, then scan it into batches.  The
    externally pre-batched calls are not part of the scan. *)
Definition SortDrawCalls (DrawCalls : list DrawCall.t) (reverseDistance : bool)
    (lst : DrawCallsList.t) : option DrawCallsList.t :=
  pairs ← Resolve DrawCalls (DrawCallsList.Indices lst);
  let sorted := merge_sort (KeyLe reverseDistance) pairs in
  let batches := BuildBatches reverseDistance sorted.*2 in
  Some {| DrawCallsList.Indices := sorted.*1;
          DrawCallsList.PreBatchedDrawCalls := DrawCallsList.PreBatchedDrawCalls lst;
          DrawCallsList.Batches := batches;
          DrawCallsList.CanUseInstancing := InstancingAchievable batches |}.

(** The span of positions of the sorted index array a batch covers. *)
Definition InSpan (i : nat) (b : DrawBatch.t) : Prop :=
  (DrawBatch.StartIndex b ≤ i < DrawBatch.StartIndex b + DrawBatch.BatchSize b)%nat.

(** Spans that start at [start], follow each other without a gap and are
    never empty. *)
Fixpoint SpansFrom (start : nat) (bs : list DrawBatch.t) : Prop :=
  match bs with
  | [] => True
  | b :: bs' =>
      DrawBatch.StartIndex b = start ∧ (0 < DrawBatch.BatchSize b)%nat ∧
      SpansFrom (start + DrawBatch.BatchSize b) bs'
  end.

(** Modelled from the spec: [RenderList::ExecuteDrawCalls] (defined in the
    missing RenderList.cpp).  "For each batch: if BatchSize == 1 and not
    using the dynamic instance buffer, issue a direct draw; otherwise
    issue one instanced draw covering the batch."  The pre-batched calls
    are "executed as their own single-instance batches". *)
Inductive Submission :=
  | DirectDraw (index : nat)
  | InstancedDraw (indices : list nat) (instanceCount : nat)
  | PreBatchedDraw (index : nat).

Definition BatchIndices (lst : DrawCallsList.t) (b : DrawBatch.t) : list nat :=
  take (DrawBatch.BatchSize b) (drop (DrawBatch.StartIndex b) (DrawCallsList.Indices lst)).

Definition SubmitBatch (lst : DrawCallsList.t) (b : DrawBatch.t) : Submission :=
  match bool_decide (DrawBatch.BatchSize b = 1%nat)
        && negb (DrawCallsList.CanUseInstancing lst),
        DrawCallsList.Indices lst !! DrawBatch.StartIndex b with
  | true, Some i => DirectDraw i
  | _, _ => InstancedDraw (BatchIndices lst b) (DrawBatch.InstanceCount b)
  end.

Definition ExecuteDrawCalls (lst : DrawCallsList.t) : list Submission :=
  (SubmitBatch lst <$> DrawCallsList.Batches lst)
  ++ (PreBatchedDraw <$> DrawCallsList.PreBatchedDrawCalls lst).

(** The draw-call indices a submission draws, in order. *)
Definition Drawn (s : Submission) : list nat :=
  match s with
  | DirectDraw i => [i]
  | InstancedDraw span _ => span
  | PreBatchedDraw _ => []
  end.

(** The draw-call indices a pass draws, in the order it draws them. *)
Definition DrawOrder (lst : DrawCallsList.t) : list nat :=
  mjoin (Drawn <$> ExecuteDrawCalls lst).

(** The camera distances of the calls an index array names. *)
Definition DistancesOf (DrawCalls : list DrawCall.t) (indices : list nat) : list Z :=
  omap (λ i, DrawCall.Distance <$> DrawCalls !! i) indices.

(** The index array names calls whose sort keys ascend. *)
Definition AscendingKeys (DrawCalls : list DrawCall.t) (reverseDistance : bool)
    (indices : list nat) : Prop :=
  ∃ calls, Forall2 (λ i c, DrawCalls !! i = Some c) indices calls ∧
           Sorted Z.le (ComputeSortKey reverseDistance <$> calls).

(** Two calls the scan may put next to each other in a run. *)
Definition Compatible (a a' : DrawCall.t) : Prop :=
  GetHash a = GetHash a' ∧ CanBatch a a' = true.

(** Neighbours inside the span [start, start + size) are compatible. *)
Definition AdjacentCompatible (full : list DrawCall.t) (start size : nat) : Prop :=
  ∀ k a a', (start ≤ k)%nat → (S k < start + size)%nat →
    full !! k = Some a → full !! S k = Some a' → Compatible a a'.

End Sorter.

(** The sum of the [BatchSize] fields. *)
Definition TotalSize (bs : list DrawBatch.t) : nat :=
  sum_list_with DrawBatch.BatchSize bs.
Arguments TotalSize : simpl never.

(** ** The render list and its pool *)

Module AntialiasingMode.
(** The values of [AntialiasingMode] that Renderer.cpp names. *)
Inductive t :=
  | None
  | FastApproximateAntialiasing
  | SubpixelMorphologicalAntialiasing
  | TemporalAntialiasing.
#[global] Instance eq_dec : EqDecision t.
Proof. solve_decision. Defined.
End AntialiasingMode.

Module GlobalIlluminationMode.
Inductive t := None | DDGI.
#[global] Instance eq_dec : EqDecision t.
Proof. solve_decision. Defined.
End GlobalIlluminationMode.

Module PostProcessSettings.
(** The fields of [PostProcessSettings] that Renderer.cpp reads or writes:
    [AntiAliasing.Mode], [MotionBlur.Enabled], [MotionBlur.Scale] and
    [GlobalIllumination.Mode]. *)
Record t := Build {
  AntiAliasing_Mode : AntialiasingMode.t;
  MotionBlur_Enabled : bool;
  MotionBlur_Scale : Q;
  GlobalIllumination_Mode : GlobalIlluminationMode.t;
}.

Definition Default : t :=
  Build AntialiasingMode.None false 0%Q GlobalIlluminationMode.None.

Definition SetAntiAliasingMode (m : AntialiasingMode.t) (s : t) : t :=
  Build m (MotionBlur_Enabled s) (MotionBlur_Scale s) (GlobalIllumination_Mode s).
End PostProcessSettings.

Module RenderList.
(** [class RenderList] (RenderList.h:337).  Lights, probes, decals and
    the other registries are arrays of opaque handles: only their being
    empty or not matters here.  [Sky], [AtmosphericFog] and [Fog] are
    pointers, [None] being the null pointer. *)
Record t := Build {
  Scenes : list nat;
  DrawCalls : list DrawCall.t;
  BatchedDrawCalls : list (DrawCall.t * nat);
  DrawCallsLists : DrawCallsListType → DrawCallsList.t;
  DirectionalLights : list nat;
  PointLights : list nat;
  SpotLights : list nat;
  SkyLights : list nat;
  EnvironmentProbes : list nat;
  Decals : list nat;
  VolumetricFogParticles : list DrawCall.t;
  Sky : option nat;
  AtmosphericFog : option nat;
  Fog : option nat;
  PostFx : list nat;
  Settings : PostProcessSettings.t;
  Blendable : list nat;
}.

Definition EmptyList : DrawCallsList.t :=
  DrawCallsList.Build [] [] [] true.

(** A freshly constructed render list. *)
Definition New : t :=
  Build [] [] [] (λ _, EmptyList) [] [] [] [] [] [] [] None None None []
        PostProcessSettings.Default [].

(** Modelled from the spec: [RenderList::Clear] is only declared.  A
    cleared list has "all arrays emptied, refcounts/pointers
    invalidated". *)
Definition Clear (l : t) : t :=
  Build [] [] [] (λ ty, DrawCallsList.Clear (DrawCallsLists l ty))
        [] [] [] [] [] [] [] None None None []
        PostProcessSettings.Default [].

Definition SetSettings (s : PostProcessSettings.t) (l : t) : t :=
  Build (Scenes l) (DrawCalls l) (BatchedDrawCalls l) (DrawCallsLists l)
        (DirectionalLights l) (PointLights l) (SpotLights l) (SkyLights l)
        (EnvironmentProbes l) (Decals l) (VolumetricFogParticles l)
        (Sky l) (AtmosphericFog l) (Fog l) (PostFx l) s (Blendable l).

Definition SetPostFx (p : list nat) (l : t) : t :=
  Build (Scenes l) (DrawCalls l) (BatchedDrawCalls l) (DrawCallsLists l)
        (DirectionalLights l) (PointLights l) (SpotLights l) (SkyLights l)
        (EnvironmentProbes l) (Decals l) (VolumetricFogParticles l)
        (Sky l) (AtmosphericFog l) (Fog l) p (Settings l) (Blendable l).

Definition SetBlendable (b : list nat) (l : t) : t :=
  Build (Scenes l) (DrawCalls l) (BatchedDrawCalls l) (DrawCallsLists l)
        (DirectionalLights l) (PointLights l) (SpotLights l) (SkyLights l)
        (EnvironmentProbes l) (Decals l) (VolumetricFogParticles l)
        (Sky l) (AtmosphericFog l) (Fog l) (PostFx l) (Settings l) b.

(** [DrawCallsLists[(int32)listType] = list]. *)
Definition SetDrawCallsList (ty : DrawCallsListType) (dl : DrawCallsList.t) (l : t) : t :=
  Build (Scenes l) (DrawCalls l) (BatchedDrawCalls l)
        (λ ty', if decide (ty' = ty) then dl else DrawCallsLists l ty')
        (DirectionalLights l) (PointLights l) (SpotLights l) (SkyLights l)
        (EnvironmentProbes l) (Decals l) (VolumetricFogParticles l)
        (Sky l) (AtmosphericFog l) (Fog l) (PostFx l) (Settings l) (Blendable l).

(** The state the pool hands out: no draw calls and every per-pass list
    empty. *)
Definition IsCleared (l : t) : Prop :=
  DrawCalls l = [] ∧ BatchedDrawCalls l = [] ∧
  ∀ ty, DrawCallsList.Indices (DrawCallsLists l ty) = [] ∧
        DrawCallsList.PreBatchedDrawCalls (DrawCallsLists l ty) = [] ∧
        DrawCallsList.Batches (DrawCallsLists l ty) = [].
End RenderList.

Module RenderListPool.
(** Modelled from the spec: the pool behind [RenderList::GetFromPool] and
    [RenderList::ReturnToPool] (declared at RenderList.h:345 and 351,
    defined in the missing RenderList.cpp).  Render lists are objects on
    the heap, named by their address; the pool keeps the addresses of the
    lists that are free. *)
Record t := Build {
  Heap : gmap nat RenderList.t;
  FreeRenderList : list nat;
}.

Definition Empty : t := Build ∅ [].

(** "Allocates the new renderer list object or reuses already allocated
    one." *)
Definition GetFromPool (p : t) : nat * t :=
  match FreeRenderList p with
  | cache :: rest => (cache, Build (Heap p) rest)
  | [] =>
      let cache := fresh (dom (Heap p)) in
      (cache, Build (<[cache := RenderList.New]> (Heap p)) [])
  end.

(** "Frees the list back to the pool": the list is cleared when it is
    returned ("cleared and returned at frame end"). *)
Definition ReturnToPool (cache : nat) (p : t) : t :=
  Build (alter RenderList.Clear cache (Heap p)) (cache :: FreeRenderList p).

(** What the holder of a list does with it between the two calls. *)
Definition Mutate (cache : nat) (f : RenderList.t → RenderList.t) (p : t) : t :=
  Build (alter f cache (Heap p)) (FreeRenderList p).

(** Every free address names an allocated list. *)
Definition WellFormed (p : t) : Prop :=
  Forall (λ cache, is_Some (Heap p !! cache)) (FreeRenderList p).
End RenderListPool.

(** ** The render context (Renderer.cpp and the headers it uses) *)

Module ViewFlags.
(** The [ViewFlags] bits that Renderer.cpp names. *)
Inductive t :=
  | AO | Shadows | AntiAliasing | CustomPostProcess | Bloom | ToneMapping
  | EyeAdaptation | CameraArtifacts | Reflections | SSR | LensFlares
  | MotionBlur | Fog | PhysicsDebug | Decals | GI | DebugDraw
  | ContactShadows | DepthOfField | GlobalSDF.
#[global] Instance eq_dec : EqDecision t.
Proof. solve_decision. Defined.
End ViewFlags.

Module ViewMode.
(** The [ViewMode] values that Renderer.cpp names; [Other] stands for the
    remaining values of the enumeration (the G-buffer channel views and
    the like), which the code only reaches through
    [GBufferPass::IsDebugView]. *)
Inductive t :=
  | Default | NoPostFx | Wireframe | LightBuffer | Reflections | Emissive
  | LightmapUVsDensity | GlobalSurfaceAtlas | GlobalSDF | MaterialComplexity
  | QuadOverdraw | MotionVectors | Other (value : nat).
#[global] Instance eq_dec : EqDecision t.
Proof. solve_decision. Defined.
End ViewMode.

Module DrawPass.
(** The [DrawPass] bits that [RenderInner] sets in [view.Pass]. *)
Inductive t := GBuffer | Forward | Distortion | MotionVectors.
End DrawPass.

Module MaterialPostFxLocation.
Inductive t :=
  | BeforeReflectionsPass | BeforeForwardPass | BeforePostProcessingPass
  | AfterPostProcessingPass | AfterCustomPostEffects | AfterAntiAliasingPass
  | MAX.
End MaterialPostFxLocation.

Module PostProcessEffectLocation.
Inductive t :=
  | Default | BeforeReflectionsPass | BeforeForwardPass
  | BeforePostProcessingPass | AfterAntiAliasingPass | CustomUpscale.
End PostProcessEffectLocation.

(** [Float3], compared component by component. *)
Definition Float3 : Type := Q * Q * Q.

Definition Float3_neq (a b : Float3) : bool :=
  negb (Qeq_bool a.1.1 b.1.1 && Qeq_bool a.1.2 b.1.2 && Qeq_bool a.2 b.2).

Module RenderBuffers.
Record t := Build { Width : Z; Height : Z }.
End RenderBuffers.

Module RenderView.
Record t := Build {
  Flags : ViewFlags.t → bool;
  Mode : ViewMode.t;
  Pass : list DrawPass.t;
  IsOrthographicProjection : bool;
  Origin : Float3;
  PrevOrigin : Float3;
}.

Definition SetPass (p : list DrawPass.t) (v : t) : t :=
  Build (Flags v) (Mode v) p (IsOrthographicProjection v) (Origin v) (PrevOrigin v).
End RenderView.

Module SceneData.
(** What the scene walk behind [task->OnCollectDrawCalls] leaves in the
    render list: the draw calls, the per-pass lists and the fog proxies. *)
Record t := Build {
  DrawCalls : list DrawCall.t;
  DrawCallsLists : DrawCallsListType → DrawCallsList.t;
  AtmosphericFog : option nat;
  Fog : option nat;
}.
End SceneData.

Module SceneRenderTask.
(** [CustomPostFx] holds, per effect, its handle and whether its [Target]
    is set; [Volumes] are the post-process volumes that
    [CollectPostFxVolumes] gathers. *)
Record t := Build {
  IsCameraCut : bool;
  RenderingPercentage : Q;
  CustomPostFx : list (nat * bool);
  Volumes : list nat;
  Scene : SceneData.t;
}.

(** [CameraCut()]: marks the frame as a camera cut. *)
Definition CameraCut (k : t) : t :=
  Build true (RenderingPercentage k) (CustomPostFx k) (Volumes k) (Scene k).
End SceneRenderTask.

Module RenderContext.
(** [struct RenderContext]; [Buffers] is a pointer. *)
Record t := Build {
  Buffers : option RenderBuffers.t;
  Task : SceneRenderTask.t;
  View : RenderView.t;
  List : RenderList.t;
}.

Definition SetList (l : RenderList.t) (c : t) : t :=
  Build (Buffers c) (Task c) (View c) l.
Definition SetView (v : RenderView.t) (c : t) : t :=
  Build (Buffers c) (Task c) v (List c).
Definition SetTask (k : SceneRenderTask.t) (c : t) : t :=
  Build (Buffers c) k (View c) (List c).
End RenderContext.

(** The parts of the engine that Renderer.cpp calls and whose code is not
    at hand, taken as parameters. *)
Module Engine.
Record t := Build {
  (** [USE_EDITOR] *)
  UseEditor : bool;
  (** the constant [ZeroTolerance] and [Math::IsOne] *)
  ZeroTolerance : Q;
  Math_IsOne : Q → bool;
  (** [GraphicsSettings::Get()->EnableGlobalSDF] *)
  EnableGlobalSDF : bool;
  (** [GBufferPass::IsDebugView] *)
  IsDebugView : ViewMode.t → bool;
  (** [ScreenSpaceReflectionsPass::NeedMotionVectors], [TAA::NeedMotionVectors] *)
  SSR_NeedMotionVectors : RenderContext.t → bool;
  TAA_NeedMotionVectors : RenderContext.t → bool;
  (** [RenderList::BlendSettings]: the blended settings *)
  BlendSettings : RenderList.t → PostProcessSettings.t;
  (** the two declared overloads of [RenderList::HasAnyPostFx] *)
  HasAnyCustomPostFx : RenderContext.t → PostProcessEffectLocation.t → bool;
  HasAnyMaterialPostFx : RenderContext.t → MaterialPostFxLocation.t → bool;
  (** how many effects a postFx pass renders at a location *)
  MaterialPostFxCount : RenderContext.t → MaterialPostFxLocation.t → nat;
  CustomPostFxCount : RenderContext.t → PostProcessEffectLocation.t → nat;
  (** whether [DepthOfFieldPass::Render] returns a temporary and whether
      [ColorGradingPass::RenderLUT] returns a table (null otherwise) *)
  DepthOfFieldActive : RenderContext.t → bool;
  ColorGradingActive : RenderContext.t → bool;
  (** whether [MotionBlurPass::Render] exchanges its two buffers *)
  MotionBlurSwaps : RenderContext.t → bool;
  (** the batch key, the batching predicate and the instancing rule of
      the sorter *)
  GetHash : DrawCall.t → Z;
  CanBatch : DrawCall.t → DrawCall.t → bool;
  InstancingAchievable : list DrawBatch.t → bool;
}.
End Engine.

(** [Renderer::NeedMotionVectors] (Renderer.cpp:223).  The function
    dereferences [renderContext.Buffers]: there is no result ([None]) when
    that pointer is null. *)
Definition NeedMotionVectors (E : Engine.t) (renderContext : RenderContext.t)
    : option bool :=
  buffers ← RenderContext.Buffers renderContext;
  let screenWidth := RenderBuffers.Width buffers in
  let screenHeight := RenderBuffers.Height buffers in
  if (screenWidth <? 16) || (screenHeight <? 16)
     || SceneRenderTask.IsCameraCut (RenderContext.Task renderContext)
  then Some false
  else
    let motionBlurSettings := RenderList.Settings (RenderContext.List renderContext) in
    Some
      ((RenderView.Flags (RenderContext.View renderContext) ViewFlags.MotionBlur
          && PostProcessSettings.MotionBlur_Enabled motionBlurSettings
          && negb (Qle_bool (PostProcessSettings.MotionBlur_Scale motionBlurSettings)
                            (Engine.ZeroTolerance E)))
       || bool_decide (RenderView.Mode (RenderContext.View renderContext)
                       = ViewMode.MotionVectors)
       || Engine.SSR_NeedMotionVectors E renderContext
       || Engine.TAA_NeedMotionVectors E renderContext).

(** [RenderList::HasAnyPostFx(renderContext, postProcess, materialPostFx)]
    (RenderList.h:528). *)
Definition HasAnyPostFx (E : Engine.t) (renderContext : RenderContext.t)
    (postProcess : PostProcessEffectLocation.t)
    (materialPostFx : MaterialPostFxLocation.t) : bool :=
  Engine.HasAnyCustomPostFx E renderContext postProcess
  || Engine.HasAnyMaterialPostFx E renderContext materialPostFx.

(** ** Renderer service start-up (Renderer.cpp:65) *)

Module RendererType.
(** [RendererType]; only [Null] is named by Renderer.cpp. *)
Inductive t := Null | Other (value : nat).
#[global] Instance eq_dec : EqDecision t.
Proof. solve_decision. Defined.
End RendererType.

Inductive RendererPass :=
  | GBufferPass | ShadowsPass | LightPass | ForwardPass | ReflectionsPass
  | ScreenSpaceReflectionsPass | AmbientOcclusionPass | DepthOfFieldPass
  | ColorGradingPass | VolumetricFogPass | EyeAdaptationPass
  | PostProcessingPass | MotionBlurPass | MultiScaler | BitonicSort
  | FXAA | TAA | SMAA | HistogramPass | GlobalSignDistanceFieldPass
  | GlobalSurfaceAtlasPass | DynamicDiffuseGlobalIlluminationPass
  | QuadOverdrawPass.

#[global] Instance RendererPass_eq_dec : EqDecision RendererPass.
Proof. solve_decision. Defined.

Module RendererService.
(** The global [PassList], the passes whose [Init] has been called and the
    passes for which a fatal message has been logged. *)
Record t := Build {
  PassList : list RendererPass;
  InitCalls : list RendererPass;
  FatalLog : list RendererPass;
}.

Definition Start : t := Build [] [] [].

(** The passes [Init] registers, in order. *)
Definition RegisteredPasses (useEditor : bool) : list RendererPass :=
  [GBufferPass; ShadowsPass; LightPass; ForwardPass; ReflectionsPass;
   ScreenSpaceReflectionsPass; AmbientOcclusionPass; DepthOfFieldPass;
   ColorGradingPass; VolumetricFogPass; EyeAdaptationPass;
   PostProcessingPass; MotionBlurPass; MultiScaler; BitonicSort;
   FXAA; TAA; SMAA; HistogramPass; GlobalSignDistanceFieldPass;
   GlobalSurfaceAtlasPass; DynamicDiffuseGlobalIlluminationPass]
  ++ (if useEditor then [QuadOverdrawPass] else []).

(** The loop "Init child services": [passInit p] is the result of
    [p->Init()], [true] meaning failure. *)
Fixpoint InitChildServices (passInit : RendererPass → bool)
    (passes : list RendererPass) (s : t) : bool * t :=
  match passes with
  | [] => (false, s)
  | p :: rest =>
      let s1 := Build (PassList s) (InitCalls s ++ [p]) (FatalLog s) in
      if passInit p
      then (true, Build (PassList s1) (InitCalls s1) (FatalLog s1 ++ [p]))
      else InitChildServices passInit rest s1
  end.

(** [RendererService::Init]; the result [true] means failure. *)
Definition Init (useEditor : bool) (rendererType : RendererType.t)
    (passInit : RendererPass → bool) (s : t) : bool * t :=
  (* Register passes *)
  let s1 := Build (PassList s ++ RegisteredPasses useEditor) (InitCalls s) (FatalLog s) in
  (* Skip when using Null renderer *)
  if decide (rendererType = RendererType.Null) then (false, s1)
  else
    (* Init child services *)
    InitChildServices passInit (PassList s1) s1.
End RendererService.

(** ** The frame orchestrator (Renderer.cpp:122 and 294) *)

(** Textures the orchestrator handles: the two ping-pong buffers of the
    render buffers and the scratch targets leased from the pool. *)
Inductive GPUTexture :=
  | RT1_FloatRGB
  | RT2_FloatRGB
  | Pooled (lease : nat).

#[global] Instance GPUTexture_eq_dec : EqDecision GPUTexture.
Proof. solve_decision. Defined.

(** A render target: the view of a texture, or [task->GetOutputView()]. *)
Inductive Target :=
  | TextureView (texture : GPUTexture)
  | OutputView.

Inductive Viewport := ScreenSize | OutputViewport.

(** Calls on the GPU context. *)
Inductive GpuCommand :=
  | ResetRenderTarget
  | SetRenderTarget (output : Target)
  | SetViewportAndScissors (viewport : Viewport)
  | Draw (input : GPUTexture)
  | ResetSR
  | FlushState.

(** Calls into the task, the view, the buffers and the render passes. *)
Inductive PassCall :=
  | CollectPostFxVolumes
  | BlendSettings
  | ViewPrepare
  | CameraCut
  | BuffersPrepare
  | OnCollectDrawCalls
  | QuadOverdrawRender (lightBuffer : GPUTexture)
  | GlobalSDFRender
  | GBufferFill (lightBuffer : GPUTexture)
  | GlobalSDFRenderDebug (lightBuffer : GPUTexture)
  | GlobalSurfaceAtlasRenderDebug (lightBuffer : GPUTexture)
  | DrawMaterialComplexity (lightBuffer : GPUTexture)
  | RenderMotionVectors
  | AmbientOcclusionRender
  | GBufferRenderDebug
  | RenderLight (lightBuffer : GPUTexture)
  | DDGIRender (lightBuffer : GPUTexture)
  | RenderLUT
  | EyeAdaptationRender (colorBuffer : GPUTexture)
  | PostProcessingRender (input output : GPUTexture) (colorGradingLUT : option GPUTexture)
  | PostFxRender (input output : GPUTexture)
  | ReflectionsRender (lightBuffer : GPUTexture)
  | AtmosphericFogDraw (lightBuffer : GPUTexture)
  | VolumetricFogRender
  | FogDraw (lightBuffer : GPUTexture)
  | ForwardRender (lightBuffer frameBuffer : GPUTexture)
  | TAARender (input output : GPUTexture)
  | DepthOfFieldRender (frameBuffer : GPUTexture)
  | MotionBlurRender (frameBuffer tempBuffer : GPUTexture)
  | MotionVectorsRenderDebug (frameBuffer : GPUTexture)
  | FXAARender (input : GPUTexture) (output : Target)
  | SMAARender (input : GPUTexture) (output : Target)
  | MultiScalerUpscale (input : GPUTexture) (output : Target).

Inductive Event :=
  | PoolGet (rt : GPUTexture)
  | PoolRelease (rt : GPUTexture)
  | Sort (reverseDistance : bool) (listType : DrawCallsListType)
  | Gpu (command : GpuCommand)
  | Run (call : PassCall).

Module RenderTargetPool.
(** Modelled from the spec: "a pooled render-target acquire/release API"
    (RenderTargetPool.h is missing).  Every acquisition is a lease with a
    number of its own; [Leased] holds the targets that are checked out. *)
Record t := Build {
  NextLease : nat;
  Leased : list GPUTexture;
}.

(** Leases handed out so far are below the counter. *)
Definition WellFormed (p : t) : Prop :=
  Forall (λ rt, match rt with
                | Pooled lease => (lease < NextLease p)%nat
                | _ => True
                end) (Leased p).
End RenderTargetPool.

(** The state a frame runs in. *)
Record World :=
  MkWorld { Context : RenderContext.t; Pool : RenderTargetPool.t; Trace : list Event }.

(** How a block of [RenderInner] ends: it goes on with the next statement,
    it leaves the function ([return;]) or an [ASSERT] fails. *)
Inductive Flow (A : Type) :=
  | Continue (a : A)
  | Returned
  | Aborted.
Arguments Continue {A} a.
Arguments Returned {A}.
Arguments Aborted {A}.

Definition M (A : Type) : Type := World → Flow A * World.

#[global] Instance M_ret : MRet M := λ A a w, (Continue a, w).
#[global] Instance M_bind : MBind M := λ A B k m w,
  match m w with
  | (Continue a, w') => k a w'
  | (Returned, w') => (Returned, w')
  | (Aborted, w') => (Aborted, w')
  end.

Definition Return {A} : M A := λ w, (Returned, w).
Definition Abort {A} : M A := λ w, (Aborted, w).
Definition emit (e : Event) : M unit :=
  λ w, (Continue (), MkWorld (Context w) (Pool w) (Trace w ++ [e])).
Definition gpu (c : GpuCommand) : M unit := emit (Gpu c).
Definition run (c : PassCall) : M unit := emit (Run c).
Definition getContext : M RenderContext.t := λ w, (Continue (Context w), w).
Definition setContext (c : RenderContext.t) : M unit :=
  λ w, (Continue (), MkWorld c (Pool w) (Trace w)).
Definition when (c : bool) (m : M unit) : M unit := if c then m else mret ().

(** [RenderTargetPool::Get]. *)
Definition RenderTargetPool_Get : M GPUTexture := λ w,
  let rt := Pooled (RenderTargetPool.NextLease (Pool w)) in
  (Continue rt,
   MkWorld (Context w)
     (RenderTargetPool.Build (S (RenderTargetPool.NextLease (Pool w)))
        (rt :: RenderTargetPool.Leased (Pool w)))
     (Trace w ++ [PoolGet rt])).

(** [RenderTargetPool::Release]; releasing the null pointer does nothing. *)
Definition RenderTargetPool_Release (rt : option GPUTexture) : M unit := λ w,
  match rt with
  | None => (Continue (), w)
  | Some rt =>
      (Continue (),
       MkWorld (Context w)
         (RenderTargetPool.Build (RenderTargetPool.NextLease (Pool w))
            (filter (λ x, x ≠ rt) (RenderTargetPool.Leased (Pool w))))
         (Trace w ++ [PoolRelease rt]))
  end.

(** Replays the pool events of a trace on the list of targets held: a
    target is never acquired while held, and only a held target is
    released.  The result is the list of targets still held. *)
Fixpoint Replay (held : list GPUTexture) (trace : list Event) : option (list GPUTexture) :=
  match trace with
  | [] => Some held
  | PoolGet rt :: rest =>
      if decide (rt ∈ held) then None else Replay (rt :: held) rest
  | PoolRelease rt :: rest =>
      if decide (rt ∈ held) then Replay (filter (λ x, x ≠ rt) held) rest else None
  | _ :: rest => Replay held rest
  end.

Definition modifyContext (f : RenderContext.t → RenderContext.t) : M unit :=
  λ w, (Continue (), MkWorld (f (Context w)) (Pool w) (Trace w)).

(** [RenderList::SortDrawCalls(renderContext, reverseDistance, listType)]
    (RenderList.h:561): sorts [DrawCallsLists[(int32)listType]] in place. *)
Definition RenderList_SortDrawCalls (E : Engine.t) (reverseDistance : bool)
    (listType : DrawCallsListType) : M unit :=
  emit (Sort reverseDistance listType);;
  renderContext ← getContext;
  let l := RenderContext.List renderContext in
  match SortDrawCalls (Engine.GetHash E) (Engine.CanBatch E)
          (Engine.InstancingAchievable E) (RenderList.DrawCalls l)
          reverseDistance (RenderList.DrawCallsLists l listType) with
  | Some sorted =>
      setContext (RenderContext.SetList
                    (RenderList.SetDrawCallsList listType sorted l) renderContext)
  | None => Abort
  end.

(** The effects render one after the other, each from [input] to [output],
    and the two buffers are exchanged after each. *)
Fixpoint PingPong (count : nat) (input output : GPUTexture)
    : M (GPUTexture * GPUTexture) :=
  match count with
  | O => mret (input, output)
  | S count' => run (PostFxRender input output);; PingPong count' output input
  end.

(** [RenderList::RunMaterialPostFxPass] (declared at RenderList.h:493):
    "Uses input and output buffers as a ping pong to render all materials."
    The two buffers are passed by reference; the result is their value
    after the call. *)
Definition RunMaterialPostFxPass (E : Engine.t)
    (location : MaterialPostFxLocation.t) (input output : GPUTexture)
    : M (GPUTexture * GPUTexture) :=
  renderContext ← getContext;
  PingPong (Engine.MaterialPostFxCount E renderContext location) input output.

(** [RenderList::RunCustomPostFxPass] (declared at RenderList.h:503). *)
Definition RunCustomPostFxPass (E : Engine.t)
    (location : PostProcessEffectLocation.t) (input output : GPUTexture)
    : M (GPUTexture * GPUTexture) :=
  renderContext ← getContext;
  PingPong (Engine.CustomPostFxCount E renderContext location) input output.

(** [RenderList::RunPostFxPass] (declared at RenderList.h:483): "Uses
    input/output buffer to render all materials.  Uses temporary render
    target as a ping pong buffer if required."  The temporary comes from the
    pool, and the buffer that does not hold the result goes back to it. *)
Definition RunPostFxPass (E : Engine.t)
    (locationA : MaterialPostFxLocation.t) (locationB : PostProcessEffectLocation.t)
    (inputOutput : GPUTexture) : M GPUTexture :=
  renderContext ← getContext;
  let count := (Engine.MaterialPostFxCount E renderContext locationA
                + Engine.CustomPostFxCount E renderContext locationB)%nat in
  match count with
  | O => mret inputOutput
  | S _ =>
      temp ← RenderTargetPool_Get;
      '(input, output) ← PingPong count inputOutput temp;
      RenderTargetPool_Release (Some output);;
      mret input
  end.

(** [DepthOfFieldPass::Render]: returns a temporary from the pool, or null
    when the effect does not run. *)
Definition DepthOfFieldPass_Render (E : Engine.t) (frameBuffer : GPUTexture)
    : M (option GPUTexture) :=
  run (DepthOfFieldRender frameBuffer);;
  renderContext ← getContext;
  if Engine.DepthOfFieldActive E renderContext
  then (dofTemporary ← RenderTargetPool_Get; mret (Some dofTemporary))
  else mret None.

(** [ColorGradingPass::RenderLUT]: returns a table from the pool, or null. *)
Definition ColorGradingPass_RenderLUT (E : Engine.t) : M (option GPUTexture) :=
  run RenderLUT;;
  renderContext ← getContext;
  if Engine.ColorGradingActive E renderContext
  then (lut ← RenderTargetPool_Get; mret (Some lut))
  else mret None.

(** [MotionBlurPass::Render], its two buffers passed by reference. *)
Definition MotionBlurPass_Render (E : Engine.t) (frameBuffer tempBuffer : GPUTexture)
    : M (GPUTexture * GPUTexture) :=
  run (MotionBlurRender frameBuffer tempBuffer);;
  renderContext ← getContext;
  if Engine.MotionBlurSwaps E renderContext
  then mret (tempBuffer, frameBuffer)
  else mret (frameBuffer, tempBuffer).

(** [RenderAntiAliasingPass] (Renderer.cpp:122). *)
Definition RenderAntiAliasingPass (input : GPUTexture) (output : Target) : M unit :=
  gpu (SetViewportAndScissors ScreenSize);;
  renderContext ← getContext;
  let aaMode := PostProcessSettings.AntiAliasing_Mode
                  (RenderList.Settings (RenderContext.List renderContext)) in
  if decide (aaMode = AntialiasingMode.FastApproximateAntialiasing) then
    run (FXAARender input output)
  else if decide (aaMode = AntialiasingMode.SubpixelMorphologicalAntialiasing) then
    run (SMAARender input output)
  else
    (gpu (SetRenderTarget output);;
     gpu (Draw input)).

(** The anti-aliasing mode [RenderInner] settles on (Renderer.cpp:304-306). *)
Definition EffectiveAntiAliasingMode (renderContext : RenderContext.t)
    : AntialiasingMode.t :=
  let view := RenderContext.View renderContext in
  let aaMode :=
    if RenderView.Flags view ViewFlags.AntiAliasing
    then PostProcessSettings.AntiAliasing_Mode
           (RenderList.Settings (RenderContext.List renderContext))
    else AntialiasingMode.None in
  if bool_decide (aaMode = AntialiasingMode.TemporalAntialiasing)
     && RenderView.IsOrthographicProjection view
  then AntialiasingMode.None
  else aaMode.

(** The effect of the scene walk on the render list. *)
Definition CollectDrawCalls (scene : SceneData.t) (l : RenderList.t) : RenderList.t :=
  RenderList.Build (RenderList.Scenes l) (SceneData.DrawCalls scene)
    (RenderList.BatchedDrawCalls l) (SceneData.DrawCallsLists scene)
    (RenderList.DirectionalLights l) (RenderList.PointLights l)
    (RenderList.SpotLights l) (RenderList.SkyLights l)
    (RenderList.EnvironmentProbes l) (RenderList.Decals l)
    (RenderList.VolumetricFogParticles l) (RenderList.Sky l)
    (SceneData.AtmosphericFog scene) (SceneData.Fog scene)
    (RenderList.PostFx l) (RenderList.Settings l) (RenderList.Blendable l).

(** [RenderInner] (Renderer.cpp:294). *)
Definition RenderInner (E : Engine.t) : M unit :=
  renderContext ← getContext;
  match RenderContext.Buffers renderContext with
  | Some buffers => if 0 <? RenderBuffers.Width buffers then mret () else Abort
  | None => Abort
  end;;

  (* Perform postFx volumes blending and query before rendering *)
  run CollectPostFxVolumes;;
  modifyContext (λ c, RenderContext.SetList
    (RenderList.SetBlendable
       (RenderList.Blendable (RenderContext.List c)
        ++ SceneRenderTask.Volumes (RenderContext.Task c))
       (RenderContext.List c)) c);;
  run BlendSettings;;
  modifyContext (λ c, RenderContext.SetList
    (RenderList.SetSettings (Engine.BlendSettings E (RenderContext.List c))
       (RenderContext.List c)) c);;
  renderContext ← getContext;
  let aaMode := EffectiveAntiAliasingMode renderContext in
  modifyContext (λ c, RenderContext.SetList
    (RenderList.SetSettings
       (PostProcessSettings.SetAntiAliasingMode aaMode
          (RenderList.Settings (RenderContext.List c)))
       (RenderContext.List c)) c);;

  (* Prepare *)
  run ViewPrepare;;
  renderContext ← getContext;
  when (Float3_neq (RenderView.Origin (RenderContext.View renderContext))
                   (RenderView.PrevOrigin (RenderContext.View renderContext)))
    (run CameraCut;;
     modifyContext (λ c, RenderContext.SetTask
       (SceneRenderTask.CameraCut (RenderContext.Task c)) c));;
  run BuffersPrepare;;
  modifyContext (λ c, RenderContext.SetList
    (RenderList.SetPostFx
       (RenderList.PostFx (RenderContext.List c)
        ++ (filter (λ postFx, postFx.2 = true)
              (SceneRenderTask.CustomPostFx (RenderContext.Task c))).*1)
       (RenderContext.List c)) c);;

  (* Collect renderable objects and construct draw call list *)
  modifyContext (λ c, RenderContext.SetView
    (RenderView.SetPass [DrawPass.GBuffer; DrawPass.Forward; DrawPass.Distortion]
       (RenderContext.View c)) c);;
  renderContext ← getContext;
  needMotionVectors ← from_option mret Abort (NeedMotionVectors E renderContext);
  when needMotionVectors
    (modifyContext (λ c, RenderContext.SetView
       (RenderView.SetPass (RenderView.Pass (RenderContext.View c)
                            ++ [DrawPass.MotionVectors])
          (RenderContext.View c)) c));;
  run OnCollectDrawCalls;;
  modifyContext (λ c, RenderContext.SetList
    (CollectDrawCalls (SceneRenderTask.Scene (RenderContext.Task c))
       (RenderContext.List c)) c);;

  (* Sort draw calls *)
  RenderList_SortDrawCalls E false GBuffer;;
  RenderList_SortDrawCalls E false GBufferNoDecals;;
  RenderList_SortDrawCalls E true Forward;;
  RenderList_SortDrawCalls E false Distortion;;

  (* Get the light accumulation buffer *)
  lightBuffer ← RenderTargetPool_Get;
  renderContext ← getContext;
  let view := RenderContext.View renderContext in
  let mode := RenderView.Mode view in

  when (Engine.UseEditor E && bool_decide (mode = ViewMode.QuadOverdraw))
    (run (QuadOverdrawRender lightBuffer);;
     gpu ResetRenderTarget;;
     gpu (SetRenderTarget OutputView);;
     gpu (SetViewportAndScissors OutputViewport);;
     gpu (Draw lightBuffer);;
     RenderTargetPool_Release (Some lightBuffer);;
     Return);;

  (* Global SDF rendering (can be used by materials later on) *)
  when (Engine.EnableGlobalSDF E && RenderView.Flags view ViewFlags.GlobalSDF)
    (run GlobalSDFRender);;

  (* Fill GBuffer *)
  run (GBufferFill lightBuffer);;

  (* Debug drawing *)
  (if bool_decide (mode = ViewMode.GlobalSDF) then
     run (GlobalSDFRenderDebug lightBuffer)
   else when (bool_decide (mode = ViewMode.GlobalSurfaceAtlas))
     (run (GlobalSurfaceAtlasRenderDebug lightBuffer)));;
  when (bool_decide (mode = ViewMode.Emissive)
        || bool_decide (mode = ViewMode.LightmapUVsDensity)
        || bool_decide (mode = ViewMode.GlobalSurfaceAtlas)
        || bool_decide (mode = ViewMode.GlobalSDF))
    (gpu ResetRenderTarget;;
     gpu (SetRenderTarget OutputView);;
     gpu (SetViewportAndScissors OutputViewport);;
     gpu (Draw lightBuffer);;
     RenderTargetPool_Release (Some lightBuffer);;
     Return);;
  when (Engine.UseEditor E && bool_decide (mode = ViewMode.MaterialComplexity))
    (run (DrawMaterialComplexity lightBuffer);;
     RenderTargetPool_Release (Some lightBuffer);;
     Return);;

  (* Render motion vectors *)
  run RenderMotionVectors;;

  (* Render ambient occlusion *)
  run AmbientOcclusionRender;;

  (* Check if use custom view mode *)
  when (Engine.IsDebugView E mode)
    (gpu ResetRenderTarget;;
     gpu (SetRenderTarget OutputView);;
     gpu (SetViewportAndScissors OutputViewport);;
     run GBufferRenderDebug;;
     RenderTargetPool_Release (Some lightBuffer);;
     Return);;

  (* Render lighting *)
  run (RenderLight lightBuffer);;
  when (RenderView.Flags view ViewFlags.GI)
    (match PostProcessSettings.GlobalIllumination_Mode
             (RenderList.Settings (RenderContext.List renderContext)) with
     | GlobalIlluminationMode.DDGI => run (DDGIRender lightBuffer)
     | _ => mret ()
     end);;
  when (bool_decide (mode = ViewMode.LightBuffer))
    (colorGradingLUT ← ColorGradingPass_RenderLUT E;
     let tempBuffer := RT2_FloatRGB in
     run (EyeAdaptationRender lightBuffer);;
     run (PostProcessingRender lightBuffer tempBuffer colorGradingLUT);;
     RenderTargetPool_Release colorGradingLUT;;
     RenderTargetPool_Release (Some lightBuffer);;
     gpu ResetRenderTarget;;
     gpu (SetRenderTarget OutputView);;
     gpu (SetViewportAndScissors OutputViewport);;
     gpu (Draw tempBuffer);;
     Return);;

  (* Material and Custom PostFx *)
  lightBuffer ← RunPostFxPass E MaterialPostFxLocation.BeforeReflectionsPass
                  PostProcessEffectLocation.BeforeReflectionsPass lightBuffer;

  (* Render reflections *)
  run (ReflectionsRender lightBuffer);;
  when (bool_decide (mode = ViewMode.Reflections))
    (gpu ResetRenderTarget;;
     gpu (SetRenderTarget OutputView);;
     gpu (SetViewportAndScissors OutputViewport);;
     gpu (Draw lightBuffer);;
     RenderTargetPool_Release (Some lightBuffer);;
     Return);;

  (* Material and Custom PostFx *)
  lightBuffer ← RunPostFxPass E MaterialPostFxLocation.BeforeForwardPass
                  PostProcessEffectLocation.BeforeForwardPass lightBuffer;

  (* Render fog *)
  gpu ResetSR;;
  when (bool_decide (is_Some (RenderList.AtmosphericFog (RenderContext.List renderContext))))
    (run (AtmosphericFogDraw lightBuffer);;
     gpu ResetSR);;
  when (bool_decide (is_Some (RenderList.Fog (RenderContext.List renderContext))))
    (run VolumetricFogRender;;
     run (FogDraw lightBuffer);;
     gpu ResetSR);;

  (* Run forward pass *)
  let frameBuffer := RT1_FloatRGB in
  let tempBuffer := RT2_FloatRGB in
  run (ForwardRender lightBuffer frameBuffer);;

  (* Cleanup *)
  gpu ResetRenderTarget;;
  gpu ResetSR;;
  gpu FlushState;;
  RenderTargetPool_Release (Some lightBuffer);;

  (* Check if skip post-processing *)
  when (bool_decide (mode = ViewMode.NoPostFx) || bool_decide (mode = ViewMode.Wireframe))
    (gpu (SetRenderTarget OutputView);;
     gpu (SetViewportAndScissors OutputViewport);;
     gpu (Draw frameBuffer);;
     Return);;

  (* Material and Custom PostFx *)
  '(frameBuffer, tempBuffer) ← RunMaterialPostFxPass E
      MaterialPostFxLocation.BeforePostProcessingPass frameBuffer tempBuffer;
  '(frameBuffer, tempBuffer) ← RunCustomPostFxPass E
      PostProcessEffectLocation.BeforePostProcessingPass frameBuffer tempBuffer;

  (* Temporal Anti-Aliasing (goes before post processing) *)
  '(frameBuffer, tempBuffer) ←
    (if decide (aaMode = AntialiasingMode.TemporalAntialiasing)
     then (run (TAARender frameBuffer tempBuffer);;
           mret (tempBuffer, frameBuffer))
     else mret (frameBuffer, tempBuffer));

  (* Depth of Field *)
  dofTemporary ← DepthOfFieldPass_Render E frameBuffer;
  let frameBuffer := default frameBuffer dofTemporary in

  (* Motion Blur *)
  '(frameBuffer, tempBuffer) ← MotionBlurPass_Render E frameBuffer tempBuffer;

  (* Color Grading LUT generation *)
  colorGradingLUT ← ColorGradingPass_RenderLUT E;

  (* Post processing *)
  run (EyeAdaptationRender frameBuffer);;
  run (PostProcessingRender frameBuffer tempBuffer colorGradingLUT);;
  RenderTargetPool_Release colorGradingLUT;;
  RenderTargetPool_Release dofTemporary;;
  let '(frameBuffer, tempBuffer) := (tempBuffer, frameBuffer) in

  (* Cleanup *)
  gpu ResetRenderTarget;;
  gpu ResetSR;;
  gpu FlushState;;

  (* Custom Post Processing *)
  '(frameBuffer, tempBuffer) ← RunMaterialPostFxPass E
      MaterialPostFxLocation.AfterPostProcessingPass frameBuffer tempBuffer;
  '(frameBuffer, tempBuffer) ← RunCustomPostFxPass E
      PostProcessEffectLocation.Default frameBuffer tempBuffer;
  '(frameBuffer, tempBuffer) ← RunMaterialPostFxPass E
      MaterialPostFxLocation.AfterCustomPostEffects frameBuffer tempBuffer;

  (* Cleanup *)
  gpu ResetRenderTarget;;
  gpu ResetSR;;
  gpu FlushState;;

  (* Debug motion vectors *)
  when (bool_decide (mode = ViewMode.MotionVectors))
    (gpu ResetRenderTarget;;
     gpu (SetRenderTarget OutputView);;
     gpu (SetViewportAndScissors OutputViewport);;
     run (MotionVectorsRenderDebug frameBuffer);;
     Return);;

  (* Anti Aliasing *)
  let renderingPercentage :=
    SceneRenderTask.RenderingPercentage (RenderContext.Task renderContext) in
  if negb (HasAnyPostFx E renderContext PostProcessEffectLocation.AfterAntiAliasingPass
             MaterialPostFxLocation.AfterAntiAliasingPass)
     && Engine.Math_IsOne E renderingPercentage
  then
    (* AA -> Back Buffer *)
    RenderAntiAliasingPass frameBuffer OutputView
  else
    (* AA -> PostFx *)
    RenderAntiAliasingPass frameBuffer (TextureView tempBuffer);;
    gpu ResetRenderTarget;;
    let '(frameBuffer, tempBuffer) := (tempBuffer, frameBuffer) in
    '(frameBuffer, tempBuffer) ← RunCustomPostFxPass E
        PostProcessEffectLocation.AfterAntiAliasingPass frameBuffer tempBuffer;
    '(frameBuffer, tempBuffer) ← RunMaterialPostFxPass E
        MaterialPostFxLocation.AfterAntiAliasingPass frameBuffer tempBuffer;

    (* PostFx -> (up-scaling) -> Back Buffer *)
    if Qle_bool 1 renderingPercentage then
      gpu (SetRenderTarget OutputView);;
      gpu (SetViewportAndScissors OutputViewport);;
      gpu (Draw frameBuffer)
    else if HasAnyPostFx E renderContext PostProcessEffectLocation.CustomUpscale
              MaterialPostFxLocation.MAX then
      RunCustomPostFxPass E PostProcessEffectLocation.CustomUpscale
        frameBuffer frameBuffer;;
      mret ()
    else
      run (MultiScalerUpscale frameBuffer OutputView).

(** ** Reasoning about blocks of the orchestrator *)

(** [w'] is [w] with more events in its trace, all of which satisfy [P]. *)
Definition Extends (P : Event → Prop) (w w' : World) : Prop :=
  ∃ evs, Trace w' = Trace w ++ evs ∧ Forall P evs.

(** Every event of the block satisfies [P], however the block ends. *)
Definition Emits {A} (P : Event → Prop) (m : M A) : Prop :=
  ∀ w, Extends P w (m w).2.

(** The block leaves the render context alone. *)
Definition KeepsContext {A} (m : M A) : Prop :=
  ∀ w, Context (m w).2 = Context w.

Definition NotPool (e : Event) : Prop :=
  match e with PoolGet _ | PoolRelease _ => False | _ => True end.

Definition NotSort (e : Event) : Prop :=
  match e with Sort _ _ => False | _ => True end.

Definition NotTAA (e : Event) : Prop :=
  match e with Run (TAARender _ _) => False | _ => True end.

Definition IsPostFx (e : Event) : Prop :=
  match e with Run (PostFxRender _ _) => True | _ => False end.

Definition AnyEvent (e : Event) : Prop := True.

(** The block does not touch the pool, however it ends. *)
Definition Calm {A} (m : M A) : Prop :=
  ∀ w, Pool (m w).2 = Pool w ∧ Extends NotPool w (m w).2.

(** The block runs through and does not touch the pool. *)
Definition Quiet {A} (m : M A) : Prop :=
  ∀ w, ∃ a, (m w).1 = Continue a ∧ Pool (m w).2 = Pool w ∧
            Extends NotPool w (m w).2.

(** Since the world [w0] the frame has acquired exactly the targets [held]
    and still holds them in [w]. *)
Definition Holds (w0 : World) (held : list GPUTexture) (w : World) : Prop :=
  NoDup held ∧
  (∀ rt, rt ∈ held →
     ∃ lease, rt = Pooled lease ∧
       (RenderTargetPool.NextLease (Pool w0) ≤ lease
        < RenderTargetPool.NextLease (Pool w))%nat) ∧
  (RenderTargetPool.NextLease (Pool w0) ≤ RenderTargetPool.NextLease (Pool w))%nat ∧
  RenderTargetPool.Leased (Pool w) = held ++ RenderTargetPool.Leased (Pool w0) ∧
  ∃ evs, Trace w = Trace w0 ++ evs ∧ Replay [] evs = Some held.

(** No assertion fails in the block. *)
Definition NeverAborts {A} (m : M A) : Prop :=
  ∀ w, (m w).1 ≠ Aborted.

(** The block runs to its end: no assertion fails and no [return] leaves
    the function. *)
Definition Completes {A} (m : M A) : Prop :=
  ∀ w, ∃ a, (m w).1 = Continue a.

(** Every per-pass list of the scene names collected draw calls. *)
Definition SceneIndicesValid (scene : SceneData.t) : Prop :=
  ∀ ty, Forall (λ i, (i < length (SceneData.DrawCalls scene))%nat)
          (DrawCallsList.Indices (SceneData.DrawCallsLists scene ty)).

(** The outcome of running [m] in [w] satisfies [Q]. *)
Definition wp {A} (m : M A) (Q : Flow A → World → Prop) (w : World) : Prop :=
  Q (m w).1 (m w).2.

(** What [RenderAntiAliasingPass] emits (Renderer.cpp:122). *)
Definition AntiAliasingTrace (aaMode : AntialiasingMode.t) (input : GPUTexture)
    (output : Target) : list Event :=
  Gpu (SetViewportAndScissors ScreenSize) ::
  match aaMode with
  | AntialiasingMode.FastApproximateAntialiasing => [Run (FXAARender input output)]
  | AntialiasingMode.SubpixelMorphologicalAntialiasing => [Run (SMAARender input output)]
  | _ => [Gpu (SetRenderTarget output); Gpu (Draw input)]
  end.

(** The sort events of a trace, in order. *)
Definition SortEvents (trace : list Event) : list (bool * DrawCallsListType) :=
  omap (λ e, match e with Sort r ty => Some (r, ty) | _ => None end) trace.

(** The sorts [RenderInner] asks for, in order (Renderer.cpp:327-330). *)
Definition FrameSorts : list (bool * DrawCallsListType) :=
  [(false, GBuffer); (false, GBufferNoDecals); (true, Forward); (false, Distortion)].

(** The settings [BlendSettings] yields for a frame, after
    [CollectPostFxVolumes] has gathered the volumes of its task
    (Renderer.cpp:302-303). *)
Definition BlendedSettings (E : Engine.t) (renderContext : RenderContext.t)
    : PostProcessSettings.t :=
  Engine.BlendSettings E
    (RenderList.SetBlendable
       (RenderList.Blendable (RenderContext.List renderContext)
        ++ SceneRenderTask.Volumes (RenderContext.Task renderContext))
       (RenderContext.List renderContext)).

(** What the anti-aliasing resolve step of a frame emits
    (Renderer.cpp:537-568), for the render context [renderContext] of the
    frame: either the anti-aliasing pass writes to the output view, or it
    writes to a scratch buffer, the render target is reset, the postFx
    registered after anti-aliasing run, and the frame reaches the output by
    a copy, by the custom upscale postFx or by the multi scaler. *)
Definition AntiAliasingResolved (E : Engine.t) (renderContext : RenderContext.t)
    (evs : list Event) : Prop :=
  let aaMode := PostProcessSettings.AntiAliasing_Mode
                  (RenderList.Settings (RenderContext.List renderContext)) in
  let renderingPercentage :=
    SceneRenderTask.RenderingPercentage (RenderContext.Task renderContext) in
  ∃ frameBuffer : GPUTexture,
    if negb (HasAnyPostFx E renderContext
               PostProcessEffectLocation.AfterAntiAliasingPass
               MaterialPostFxLocation.AfterAntiAliasingPass)
       && Engine.Math_IsOne E renderingPercentage
    then evs = AntiAliasingTrace aaMode frameBuffer OutputView
    else
      ∃ (scratch upscaleInput : GPUTexture) (postFx : list Event),
        Forall IsPostFx postFx ∧
        length postFx
        = (Engine.CustomPostFxCount E renderContext
             PostProcessEffectLocation.AfterAntiAliasingPass
           + Engine.MaterialPostFxCount E renderContext
               MaterialPostFxLocation.AfterAntiAliasingPass)%nat ∧
        evs = AntiAliasingTrace aaMode frameBuffer (TextureView scratch)
              ++ [Gpu ResetRenderTarget] ++ postFx
              ++ (if Qle_bool 1 renderingPercentage then
                    [Gpu (SetRenderTarget OutputView);
                     Gpu (SetViewportAndScissors OutputViewport);
                     Gpu (Draw upscaleInput)]
                  else if HasAnyPostFx E renderContext
                            PostProcessEffectLocation.CustomUpscale
                            MaterialPostFxLocation.MAX then
                    replicate
                      (Engine.CustomPostFxCount E renderContext
                         PostProcessEffectLocation.CustomUpscale)
                      (Run (PostFxRender upscaleInput upscaleInput))
                  else
                    [Run (MultiScalerUpscale upscaleInput OutputView)]).

(** The postconditions of the walks through [RenderInner]: [w0] is the
    world the frame starts in. *)

(** Nothing acquired since [w0] is still held. *)
Definition Balanced (w0 : World) {A} : Flow A → World → Prop :=
  λ _ w, Holds w0 [] w.

(** Unless an assertion failed, the frame asked for exactly the sorts of
    [FrameSorts] and its per-pass lists are the sorted lists of the scene. *)
Definition SortedFrame (E : Engine.t) (w0 : World) : Flow () → World → Prop :=
  λ fl w,
    fl ≠ Aborted →
    ∃ evs,
      Trace w = Trace w0 ++ evs ∧
      SortEvents evs = FrameSorts ∧
      ∀ r ty, (r, ty) ∈ FrameSorts →
        SortDrawCalls (Engine.GetHash E) (Engine.CanBatch E)
          (Engine.InstancingAchievable E)
          (SceneData.DrawCalls
             (SceneRenderTask.Scene (RenderContext.Task (Context w0)))) r
          (SceneData.DrawCallsLists
             (SceneRenderTask.Scene (RenderContext.Task (Context w0))) ty)
        = Some (RenderList.DrawCallsLists (RenderContext.List (Context w)) ty).

(** Unless an assertion failed, temporal anti-aliasing did not run and the
    settings of the frame say [None]. *)
Definition Downgraded (w0 : World) : Flow () → World → Prop :=
  λ fl w,
    fl ≠ Aborted →
    ∃ evs,
      Trace w = Trace w0 ++ evs ∧ Forall NotTAA evs ∧
      PostProcessSettings.AntiAliasing_Mode
        (RenderList.Settings (RenderContext.List (Context w)))
      = AntialiasingMode.None.

(** The view modes in which [RenderInner] draws a debug or partial image
    and returns before the anti-aliasing resolve (Renderer.cpp:337-534). *)
Definition ReturnsEarly (E : Engine.t) (mode : ViewMode.t) : bool :=
  Engine.UseEditor E && bool_decide (mode = ViewMode.QuadOverdraw)
  || (bool_decide (mode = ViewMode.Emissive)
      || bool_decide (mode = ViewMode.LightmapUVsDensity)
      || bool_decide (mode = ViewMode.GlobalSurfaceAtlas)
      || bool_decide (mode = ViewMode.GlobalSDF))
  || Engine.UseEditor E && bool_decide (mode = ViewMode.MaterialComplexity)
  || Engine.IsDebugView E mode
  || bool_decide (mode = ViewMode.LightBuffer)
  || bool_decide (mode = ViewMode.Reflections)
  || (bool_decide (mode = ViewMode.NoPostFx)
      || bool_decide (mode = ViewMode.Wireframe))
  || bool_decide (mode = ViewMode.MotionVectors).

(** When the frame ran to its end, its trace ends with the anti-aliasing
    resolve. *)
Definition Resolved (E : Engine.t) (w0 : World) : Flow () → World → Prop :=
  λ fl w,
    fl = Continue () →
    ∃ pre resolve,
      Trace w = Trace w0 ++ pre ++ resolve ∧
      AntiAliasingResolved E (Context w) resolve.

(** ** An example frame *)

Module Example.
(** Settings as a post-process volume may blend them: temporal
    anti-aliasing, motion blur and DDGI on. *)
Definition settings : PostProcessSettings.t :=
  PostProcessSettings.Build AntialiasingMode.TemporalAntialiasing true (1 # 2)
    GlobalIlluminationMode.DDGI.

(** An editor build in which one material postFx renders before the
    reflections and one after anti-aliasing, and in which depth of field
    and colour grading are active.  Draw calls hash by material and
    batch when they share the geometry. *)
Definition engine : Engine.t :=
  {| Engine.UseEditor := true;
     Engine.ZeroTolerance := 1 # 1000000;
     Engine.Math_IsOne := λ q, negb (Qle_bool (1 # 1000000) (Qabs (q - 1)));
     Engine.EnableGlobalSDF := true;
     Engine.IsDebugView := λ m,
       match m with ViewMode.Other _ => true | _ => false end;
     Engine.SSR_NeedMotionVectors := λ _, false;
     Engine.TAA_NeedMotionVectors := λ _, false;
     Engine.BlendSettings := λ _, settings;
     Engine.HasAnyCustomPostFx := λ _ _, false;
     Engine.HasAnyMaterialPostFx := λ _ l,
       match l with
       | MaterialPostFxLocation.AfterAntiAliasingPass => true
       | _ => false
       end;
     Engine.MaterialPostFxCount := λ _ l,
       match l with
       | MaterialPostFxLocation.AfterAntiAliasingPass
       | MaterialPostFxLocation.BeforeReflectionsPass => 1%nat
       | _ => 0%nat
       end;
     Engine.CustomPostFxCount := λ _ _, 0%nat;
     Engine.DepthOfFieldActive := λ _, true;
     Engine.ColorGradingActive := λ _, true;
     Engine.MotionBlurSwaps := λ _, false;
     Engine.GetHash := λ dc, DrawCall.Material dc * 397;
     Engine.CanBatch := λ a b, DrawCall.Geometry a =? DrawCall.Geometry b;
     Engine.InstancingAchievable :=
       existsb (λ b, 1 <? DrawBatch.BatchSize b)%nat |}.

(** Three calls at camera distances 5, 1 and 3; the second one has a
    geometry of its own. *)
Definition calls : list DrawCall.t :=
  [DrawCall.Build 7 2 5 1; DrawCall.Build 8 2 1 1; DrawCall.Build 7 2 3 1].

Definition drawList : DrawCallsList.t :=
  DrawCallsList.Build [0; 1; 2]%nat [] [] true.

Definition scene : SceneData.t :=
  {| SceneData.DrawCalls := calls;
     SceneData.DrawCallsLists := λ ty,
       match ty with
       | GBuffer | Forward => drawList
       | _ => RenderList.EmptyList
       end;
     SceneData.AtmosphericFog := None;
     SceneData.Fog := Some 1%nat |}.

Definition view (mode : ViewMode.t) (orthographic : bool) : RenderView.t :=
  {| RenderView.Flags := λ _, true;
     RenderView.Mode := mode;
     RenderView.Pass := [];
     RenderView.IsOrthographicProjection := orthographic;
     RenderView.Origin := (0, 0, 0)%Q;
     RenderView.PrevOrigin := (0, 0, 0)%Q |}.

Definition context (mode : ViewMode.t) (orthographic : bool) (percentage : Q)
    : RenderContext.t :=
  {| RenderContext.Buffers := Some (RenderBuffers.Build 1280 720);
     RenderContext.Task :=
       SceneRenderTask.Build false percentage [(4%nat, true)] [] scene;
     RenderContext.View := view mode orthographic;
     RenderContext.List := RenderList.New |}.

(** A world in which two targets of the pool are already checked out. *)
Definition world (mode : ViewMode.t) (orthographic : bool) (percentage : Q)
    : World :=
  {| Context := context mode orthographic percentage;
     Pool := RenderTargetPool.Build 2 [Pooled 1; Pooled 0];
     Trace := [] |}.

(** A pool of render lists with one free list that still holds stale
    draw calls in memory. *)
Definition listPool : RenderListPool.t :=
  RenderListPool.Build {[ 0%nat := RenderList.New ]} [0%nat].

(** What a frame leaves in the list it leased. *)
Definition fill (l : RenderList.t) : RenderList.t :=
  RenderList.SetDrawCallsList GBuffer drawList
    (CollectDrawCalls scene l).
End Example.

(** ** Proofs: sorter and batcher *)

Lemma TotalSize_nil : TotalSize [] = 0%nat.
Proof. reflexivity. Qed.

Lemma TotalSize_cons b bs :
  TotalSize (b :: bs) = (DrawBatch.BatchSize b + TotalSize bs)%nat.
Proof. reflexivity. Qed.

Lemma TotalSize_app bs1 bs2 :
  TotalSize (bs1 ++ bs2) = (TotalSize bs1 + TotalSize bs2)%nat.
Proof. apply sum_list_with_app. Qed.

Section SorterProofs.
Variable GetHash : DrawCall.t → Z.
Variable CanBatch : DrawCall.t → DrawCall.t → bool.
Variable InstancingAchievable : list DrawBatch.t → bool.

Local Abbreviation Scan := (Scan GetHash CanBatch).
Local Abbreviation BuildBatches := (BuildBatches GetHash CanBatch).
Local Abbreviation SortDrawCalls := (SortDrawCalls GetHash CanBatch InstancingAchievable).
Local Abbreviation KeyLe := (KeyLe GetHash).
Local Abbreviation ComputeSortKey := (ComputeSortKey GetHash).
Local Abbreviation Compatible := (Compatible GetHash CanBatch).
Local Abbreviation AdjacentCompatible := (AdjacentCompatible GetHash CanBatch).
Local Abbreviation AscendingKeys := (AscendingKeys GetHash).

(** *** The spans of the batches *)

Lemma Scan_spans rest : ∀ r key start size inst prev,
  (0 < size)%nat →
  SpansFrom start (Scan r key start size inst prev rest) ∧
  TotalSize (Scan r key start size inst prev rest) = (size + length rest)%nat.
Proof.
  induction rest as [|c rest IH]; intros r key start size inst prev Hsize; simpl.
  - rewrite TotalSize_cons, TotalSize_nil. simpl. auto with lia.
  - destruct (bool_decide _ && CanBatch prev c).
    + destruct (IH r key start (S size) (inst + DrawCall.InstanceCount c)%nat c) as [H1 H2];
        [lia|]. split; [done|]. rewrite H2. lia.
    + destruct (IH r (ComputeSortKey r c) (start + size)%nat 1%nat
                  (DrawCall.InstanceCount c) c) as [H1 H2]; [lia|].
      split; [simpl; auto|].
      rewrite TotalSize_cons, H2. simpl. lia.
Qed.

Lemma BuildBatches_spans r calls :
  SpansFrom 0 (BuildBatches r calls) ∧
  TotalSize (BuildBatches r calls) = length calls.
Proof.
  destruct calls as [|c rest]; [done|]. simpl.
  destruct (Scan_spans rest r (ComputeSortKey r c) 0%nat 1%nat
              (DrawCall.InstanceCount c) c) as [H1 H2]; [lia|]. done.
Qed.

Lemma SpansFrom_lookup bs : ∀ start i b,
  SpansFrom start bs → bs !! i = Some b →
  DrawBatch.StartIndex b = (start + TotalSize (take i bs))%nat ∧
  (0 < DrawBatch.BatchSize b)%nat.
Proof.
  induction bs as [|b0 bs IH]; intros start i b Hs Hi; [done|].
  destruct Hs as (H1 & H2 & H3). destruct i as [|i]; simpl in *.
  - simplify_eq. rewrite TotalSize_nil. split; [lia|done].
  - destruct (IH _ _ _ H3 Hi) as [H4 H5]. split; [|done].
    rewrite H4, TotalSize_cons. lia.
Qed.

Lemma TotalSize_take_S bs i b :
  bs !! i = Some b →
  TotalSize (take (S i) bs) = (TotalSize (take i bs) + DrawBatch.BatchSize b)%nat.
Proof.
  intros Hi. rewrite (take_S_r _ _ _ Hi), TotalSize_app.
  rewrite TotalSize_cons, TotalSize_nil. lia.
Qed.

Lemma TotalSize_take_mono bs i j :
  (i ≤ j)%nat → (TotalSize (take i bs) ≤ TotalSize (take j bs))%nat.
Proof.
  intros Hij. rewrite <- (take_drop i (take j bs)), TotalSize_app.
  rewrite take_take. replace (i `min` j)%nat with i by lia. lia.
Qed.

(** Consecutive batches are contiguous, and batches never overlap. *)
Lemma SpansFrom_contiguous bs start i b1 b2 :
  SpansFrom start bs → bs !! i = Some b1 → bs !! S i = Some b2 →
  DrawBatch.StartIndex b2 = (DrawBatch.StartIndex b1 + DrawBatch.BatchSize b1)%nat.
Proof.
  intros Hs H1 H2.
  destruct (SpansFrom_lookup _ _ _ _ Hs H1) as [E1 _].
  destruct (SpansFrom_lookup _ _ _ _ Hs H2) as [E2 _].
  rewrite E2, E1, (TotalSize_take_S _ _ _ H1). lia.
Qed.

Lemma SpansFrom_disjoint bs start i j b1 b2 :
  SpansFrom start bs → (i < j)%nat → bs !! i = Some b1 → bs !! j = Some b2 →
  (DrawBatch.StartIndex b1 + DrawBatch.BatchSize b1 ≤ DrawBatch.StartIndex b2)%nat.
Proof.
  intros Hs Hij H1 H2.
  destruct (SpansFrom_lookup _ _ _ _ Hs H1) as [E1 _].
  destruct (SpansFrom_lookup _ _ _ _ Hs H2) as [E2 _].
  pose proof (TotalSize_take_mono bs (S i) j ltac:(lia)) as Hm.
  rewrite (TotalSize_take_S _ _ _ H1) in Hm. lia.
Qed.

(** *** Resolving the indices *)

Lemma Resolve_Some DrawCalls indices :
  Forall (λ i, (i < length DrawCalls)%nat) indices →
  is_Some (Resolve DrawCalls indices).
Proof.
  intros Hall. unfold Resolve. apply mapM_is_Some.
  eapply Forall_impl; [exact Hall|]. intros i Hi. simpl in Hi.
  destruct (lookup_lt_is_Some_2 DrawCalls i Hi) as [c Hc].
  unfold compose. rewrite Hc. simpl. eauto.
Qed.

Lemma Resolve_spec DrawCalls indices pairs :
  Resolve DrawCalls indices = Some pairs →
  pairs.*1 = indices ∧
  Forall (λ p, DrawCalls !! p.1 = Some p.2) pairs.
Proof.
  unfold Resolve. intros H. apply mapM_Some in H.
  induction H as [|i p indices pairs Hp _ [IH1 IH2]]; [done|].
  destruct (DrawCalls !! i) as [c|] eqn:Hc; simplify_eq/=.
  split; [by f_equal|]. constructor; [done|done].
Qed.

(** *** The sort *)

#[local] Instance KeyLe_total r : Total (KeyLe r).
Proof. intros p q. unfold KeyLe. lia. Qed.

#[local] Instance KeyLe_trans r : Transitive (KeyLe r).
Proof. intros p q s. unfold KeyLe. lia. Qed.

Lemma SortDrawCalls_inv DrawCalls r lst sorted :
  SortDrawCalls DrawCalls r lst = Some sorted →
  ∃ pairs,
    Resolve DrawCalls (DrawCallsList.Indices lst) = Some pairs ∧
    DrawCallsList.Indices sorted = (merge_sort (KeyLe r) pairs).*1 ∧
    DrawCallsList.Batches sorted = BuildBatches r (merge_sort (KeyLe r) pairs).*2.
Proof.
  unfold SortDrawCalls. intros H.
  destruct (Resolve DrawCalls (DrawCallsList.Indices lst)) as [pairs|]; [|done].
  simpl in H. simplify_eq. by exists pairs.
Qed.

Lemma SortDrawCalls_Some DrawCalls r lst :
  Forall (λ i, (i < length DrawCalls)%nat) (DrawCallsList.Indices lst) →
  is_Some (SortDrawCalls DrawCalls r lst).
Proof.
  intros Hall. destruct (Resolve_Some _ _ Hall) as [pairs Hp].
  unfold SortDrawCalls. rewrite Hp. simpl. eauto.
Qed.

Lemma sorted_pairs_lookup DrawCalls indices pairs r i ia a :
  Resolve DrawCalls indices = Some pairs →
  (merge_sort (KeyLe r) pairs).*1 !! i = Some ia →
  DrawCalls !! ia = Some a →
  (merge_sort (KeyLe r) pairs).*2 !! i = Some a.
Proof.
  intros Hres Hi Ha. apply Resolve_spec in Hres as [_ Hall].
  rewrite <- (merge_sort_Permutation (KeyLe r) pairs) in Hall.
  rewrite list_lookup_fmap in Hi. rewrite list_lookup_fmap.
  destruct (merge_sort (KeyLe r) pairs !! i) as [[ia' a']|] eqn:Hp; simplify_eq/=.
  rewrite Forall_lookup in Hall. specialize (Hall _ _ Hp). simpl in Hall.
  congruence.
Qed.

(** *** Compatibility inside a batch *)

Lemma drop_cons_lookup {A} (l : list A) n x l' :
  drop n l = x :: l' → l !! n = Some x ∧ drop (S n) l = l'.
Proof.
  intros H. split.
  - rewrite <- (Nat.add_0_r n), <- lookup_drop, H. done.
  - replace (S n) with (n + 1)%nat by lia.
    rewrite <- drop_drop, H. done.
Qed.

Lemma Scan_adjacent rest : ∀ r key start size inst prev full,
  (0 < size)%nat →
  full !! (start + size - 1)%nat = Some prev →
  drop (start + size) full = rest →
  AdjacentCompatible full start size →
  ∀ b, b ∈ Scan r key start size inst prev rest →
       AdjacentCompatible full (DrawBatch.StartIndex b) (DrawBatch.BatchSize b).
Proof.
  induction rest as [|c rest IH];
    intros r key start size inst prev full Hsize Hprev Hdrop Hadj b Hb; simpl in Hb.
  - apply list_elem_of_singleton in Hb. subst b. exact Hadj.
  - apply drop_cons_lookup in Hdrop as [Hc Hdrop].
    destruct (bool_decide (GetHash prev = GetHash c) && CanBatch prev c) eqn:Htest.
    + apply andb_true_iff in Htest as [Hk Hcan]. apply bool_decide_eq_true in Hk.
      eapply (IH r key start (S size)); [lia| | |  |exact Hb].
      * replace (start + S size - 1)%nat with (start + size)%nat by lia. done.
      * replace (start + S size)%nat with (S (start + size)) by lia. done.
      * intros k a a' Hk1 Hk2 Ha Ha'.
        destruct (decide (S k < start + size)%nat) as [Hlt|Hge].
        -- by eapply Hadj.
        -- replace k with (start + size - 1)%nat in * by lia.
           replace (S (start + size - 1)) with (start + size)%nat in * by lia.
           simplify_eq. done.
    + apply elem_of_cons in Hb as [->|Hb]; [exact Hadj|].
      eapply (IH r (ComputeSortKey r c) (start + size)%nat 1%nat); [lia| | | |exact Hb].
      * replace (start + size + 1 - 1)%nat with (start + size)%nat by lia. done.
      * replace (start + size + 1)%nat with (S (start + size)) by lia. done.
      * intros k a a' Hk1 Hk2. lia.
Qed.

Lemma BuildBatches_adjacent r calls b :
  b ∈ BuildBatches r calls →
  AdjacentCompatible calls (DrawBatch.StartIndex b) (DrawBatch.BatchSize b).
Proof.
  destruct calls as [|c rest]; simpl; [by intros ?%elem_of_nil|].
  apply Scan_adjacent; [lia|done|done|].
  intros k a a' Hk1 Hk2. lia.
Qed.

(** With a symmetric and transitive predicate, compatibility of
    neighbours extends to every two calls of a span. *)
Section AllPairs.
Hypothesis CanBatch_sym : ∀ a b, CanBatch a b = CanBatch b a.
Hypothesis CanBatch_trans : ∀ a b c,
  CanBatch a b = true → CanBatch b c = true → CanBatch a c = true.

Lemma Compatible_sym a b : Compatible a b → Compatible b a.
Proof. intros [H1 H2]. split; [done|]. by rewrite CanBatch_sym. Qed.

Lemma Compatible_trans a b c : Compatible a b → Compatible b c → Compatible a c.
Proof. intros [H1 H2] [H3 H4]. split; [congruence|eauto]. Qed.

Lemma span_ordered_pairs full start size j : ∀ i a b,
  AdjacentCompatible full start size →
  (start ≤ i)%nat → (i < j)%nat → (j < start + size)%nat →
  full !! i = Some a → full !! j = Some b → Compatible a b.
Proof.
  induction j as [|j IH]; intros i a b Hadj Hi Hij Hj Ha Hb; [lia|].
  destruct (decide (i = j)) as [->|Hne].
  - eapply Hadj; eauto.
  - destruct (lookup_lt_is_Some_2 full j) as [m Hm].
    { apply lookup_lt_Some in Hb. lia. }
    eapply Compatible_trans.
    + eapply (IH i a m); eauto with lia.
    + eapply Hadj; [| |exact Hm|exact Hb]; lia.
Qed.

Lemma span_all_pairs full b i j x y :
  AdjacentCompatible full (DrawBatch.StartIndex b) (DrawBatch.BatchSize b) →
  InSpan i b → InSpan j b → i ≠ j →
  full !! i = Some x → full !! j = Some y → Compatible x y.
Proof.
  unfold InSpan. intros Hadj Hi Hj Hne Hx Hy.
  destruct (decide (i < j)%nat).
  - apply (span_ordered_pairs full _ _ j i x y Hadj); [lia|lia|lia|done|done].
  - apply Compatible_sym.
    apply (span_ordered_pairs full _ _ i j y x Hadj); [lia|lia|lia|done|done].
Qed.
End AllPairs.

Lemma key_order_3 r (c1 c2 c3 : DrawCall.t) :
  DrawCall.Distance c1 = 5 → DrawCall.Distance c2 = 1 → DrawCall.Distance c3 = 3 →
  (merge_sort (KeyLe r) [(0%nat, c1); (1%nat, c2); (2%nat, c3)]).*1 =
  if r then [0; 2; 1]%nat else [1; 2; 0]%nat.
Proof.
  intros H1 H2 H3.
  pose proof (Z.mod_pos_bound (GetHash c1) (2 ^ 32) ltac:(lia)).
  pose proof (Z.mod_pos_bound (GetHash c2) (2 ^ 32) ltac:(lia)).
  pose proof (Z.mod_pos_bound (GetHash c3) (2 ^ 32) ltac:(lia)).
  destruct r; unfold merge_sort; simpl; repeat (case_decide; simpl);
    first [reflexivity
          |exfalso;
           unfold KeyLe, ComputeSortKey, DistanceContribution in *;
           simpl in *; lia].
Qed.


(** *** Executing a sorted list *)

Lemma Drawn_SubmitBatch lst b : Drawn (SubmitBatch lst b) = BatchIndices lst b.
Proof.
  unfold SubmitBatch, BatchIndices.
  destruct (bool_decide _ && _) eqn:Hd; [|done].
  destruct (DrawCallsList.Indices lst !! DrawBatch.StartIndex b) as [i|] eqn:Hi;
    [|done].
  apply andb_true_iff in Hd as [H1%bool_decide_eq_true _].
  rewrite H1, (drop_S _ _ _ Hi). done.
Qed.

Lemma spans_cover lst bs : ∀ start,
  SpansFrom start bs →
  mjoin (BatchIndices lst <$> bs)
  = take (TotalSize bs) (drop start (DrawCallsList.Indices lst)).
Proof.
  induction bs as [|b bs IH]; intros start Hs; [by rewrite take_0|].
  destruct Hs as (H1 & H2 & H3). rewrite fmap_cons, TotalSize_cons.
  simpl. rewrite (IH _ H3). unfold BatchIndices. rewrite H1.
  rewrite <- take_take_drop, drop_drop. done.
Qed.

Lemma DrawOrder_sorted lst :
  SpansFrom 0 (DrawCallsList.Batches lst) →
  TotalSize (DrawCallsList.Batches lst) = length (DrawCallsList.Indices lst) →
  DrawOrder lst = DrawCallsList.Indices lst.
Proof.
  intros Hs Hn. unfold DrawOrder, ExecuteDrawCalls.
  rewrite fmap_app, <- !list_fmap_compose.
  rewrite (list_fmap_ext (Drawn ∘ SubmitBatch lst) (BatchIndices lst));
    [|intros; apply Drawn_SubmitBatch].
  rewrite join_app, (spans_cover _ _ 0%nat Hs), Hn, drop_0, take_ge by done.
  replace (mjoin ((Drawn ∘ PreBatchedDraw) <$> _)) with (@nil nat);
    [by rewrite app_nil_r|].
  induction (DrawCallsList.PreBatchedDrawCalls lst); simpl; auto.
Qed.

Lemma SortDrawCalls_DrawOrder DrawCalls r lst sorted :
  SortDrawCalls DrawCalls r lst = Some sorted →
  DrawOrder sorted = DrawCallsList.Indices sorted.
Proof.
  intros Hs.
  destruct (SortDrawCalls_inv _ _ _ _ Hs) as (pairs & Hres & Hidx & Hbat).
  destruct (BuildBatches_spans r (merge_sort (KeyLe r) pairs).*2) as [H1 H2].
  apply DrawOrder_sorted; rewrite Hbat; [done|].
  rewrite H2, Hidx, !length_fmap. done.
Qed.

Lemma SortDrawCalls_ascending DrawCalls r lst sorted :
  SortDrawCalls DrawCalls r lst = Some sorted →
  AscendingKeys DrawCalls r (DrawCallsList.Indices sorted).
Proof.
  intros Hs.
  destruct (SortDrawCalls_inv _ _ _ _ Hs) as (pairs & Hres & Hidx & Hbat).
  apply Resolve_spec in Hres as [_ Hall].
  rewrite <- (merge_sort_Permutation (KeyLe r) pairs) in Hall.
  exists (merge_sort (KeyLe r) pairs).*2. rewrite Hidx. split.
  - apply Forall2_fmap, Forall_Forall2_diag. done.
  - rewrite <- list_fmap_compose.
    apply (Sorted_fmap _ (KeyLe r) Z.le); [by intros x y|].
    apply Sorted_merge_sort, _.
Qed.

(** *** The claims about the sorter *)

(** C1. For every non-empty draw call list (whose indices name collected
    calls) [SortDrawCalls] produces a batch sequence that partitions the
    sorted index array: the first batch starts at 0, every batch starts
    where the one before it ends, no position lies in two batches, and
    the batch sizes sum to [Indices.Count]. *)
Theorem SortDrawCalls_batches_partition DrawCalls reverseDistance lst :
  DrawCallsList.Indices lst ≠ [] →
  Forall (λ i, (i < length DrawCalls)%nat) (DrawCallsList.Indices lst) →
  ∃ sorted,
    SortDrawCalls DrawCalls reverseDistance lst = Some sorted ∧
    DrawCallsList.Indices sorted ≡ₚ DrawCallsList.Indices lst ∧
    DrawCallsList.Batches sorted ≠ [] ∧
    SpansFrom 0 (DrawCallsList.Batches sorted) ∧
    (∀ i b1 b2,
       DrawCallsList.Batches sorted !! i = Some b1 →
       DrawCallsList.Batches sorted !! S i = Some b2 →
       DrawBatch.StartIndex b2
       = (DrawBatch.StartIndex b1 + DrawBatch.BatchSize b1)%nat) ∧
    (∀ i j b1 b2 k, i ≠ j →
       DrawCallsList.Batches sorted !! i = Some b1 →
       DrawCallsList.Batches sorted !! j = Some b2 →
       ¬ (InSpan k b1 ∧ InSpan k b2)) ∧
    TotalSize (DrawCallsList.Batches sorted)
    = length (DrawCallsList.Indices sorted).
Proof.
  intros Hne Hall.
  destruct (SortDrawCalls_Some DrawCalls reverseDistance lst Hall) as [sorted Hs].
  exists sorted. split; [done|].
  destruct (SortDrawCalls_inv _ _ _ _ Hs) as (pairs & Hres & Hidx & Hbat).
  destruct (Resolve_spec _ _ _ Hres) as [Hfst _].
  destruct (BuildBatches_spans reverseDistance
              (merge_sort (KeyLe reverseDistance) pairs).*2) as [Hspans Htotal].
  rewrite <- Hbat in Hspans, Htotal.
  assert (Hlen : TotalSize (DrawCallsList.Batches sorted)
                 = length (DrawCallsList.Indices sorted)).
  { rewrite Htotal, Hidx, !length_fmap. done. }
  assert (Hperm : DrawCallsList.Indices sorted ≡ₚ DrawCallsList.Indices lst).
  { rewrite Hidx, <- Hfst. by rewrite merge_sort_Permutation. }
  split_and!; try done.
  - intros Hnil. rewrite Hnil, TotalSize_nil in Hlen.
    destruct (DrawCallsList.Indices sorted) eqn:E; [|done].
    apply Permutation_nil_l in Hperm. done.
  - intros i b1 b2. by apply SpansFrom_contiguous with (start := 0%nat).
  - intros i j b1 b2 k Hij H1 H2 [Hk1 Hk2]. unfold InSpan in *.
    destruct (decide (i < j)%nat).
    + pose proof (SpansFrom_disjoint _ _ i j _ _ Hspans ltac:(lia) H1 H2). lia.
    + pose proof (SpansFrom_disjoint _ _ j i _ _ Hspans ltac:(lia) H2 H1). lia.
Qed.


End SorterProofs.

(** ** Proofs: the frame orchestrator *)

(** *** Weakest preconditions *)

Lemma wp_bind {A B} (m : M A) (k : A → M B) Q w :
  wp m (λ fl w', match fl with
                 | Continue a => wp (k a) Q w'
                 | Returned => Q Returned w'
                 | Aborted => Q Aborted w'
                 end) w →
  wp (m ≫= k) Q w.
Proof.
  unfold wp, mbind, M_bind. destruct (m w) as [[a| |] w']; simpl; auto.
Qed.

Lemma wp_ret {A} (a : A) (Q : Flow A → World → Prop) w : Q (Continue a) w → wp (mret a) Q w.
Proof. done. Qed.

Lemma wp_Return {A} (Q : Flow A → World → Prop) w : Q Returned w → wp Return Q w.
Proof. done. Qed.

Lemma wp_Abort {A} (Q : Flow A → World → Prop) w : Q Aborted w → wp Abort Q w.
Proof. done. Qed.

Lemma wp_getContext Q w : Q (Continue (Context w)) w → wp getContext Q w.
Proof. done. Qed.

Lemma wp_modifyContext f Q w :
  Q (Continue ()) (MkWorld (f (Context w)) (Pool w) (Trace w)) → wp (modifyContext f) Q w.
Proof. done. Qed.

Lemma wp_setContext c Q w :
  Q (Continue ()) (MkWorld c (Pool w) (Trace w)) → wp (setContext c) Q w.
Proof. done. Qed.

Lemma wp_emit e Q w :
  Q (Continue ()) (MkWorld (Context w) (Pool w) (Trace w ++ [e])) → wp (emit e) Q w.
Proof. done. Qed.

(** *** Extending traces *)

Lemma Extends_refl P w : Extends P w w.
Proof. exists []. by rewrite app_nil_r. Qed.

Lemma Extends_same P w w' : Trace w' = Trace w → Extends P w w'.
Proof. intros H. exists []. by rewrite app_nil_r. Qed.

Lemma Extends_trans P w1 w2 w3 : Extends P w1 w2 → Extends P w2 w3 → Extends P w1 w3.
Proof.
  intros (e1 & H1 & F1) (e2 & H2 & F2). exists (e1 ++ e2).
  rewrite H2, H1, app_assoc. split; [done|]. by apply Forall_app.
Qed.

Lemma Extends_mono (P P' : Event → Prop) w w' :
  (∀ e, P e → P' e) → Extends P w w' → Extends P' w w'.
Proof. intros HP (e & H & F). exists e. split; [done|]. eapply Forall_impl; eauto. Qed.

(** *** Structural rules for [Emits] *)

Section EmitsRules.
Context (P : Event → Prop).

Lemma Emits_ret {A} (a : A) : Emits P (mret a).
Proof. intros w. apply Extends_refl. Qed.

Lemma Emits_Return {A} : Emits P (@Return A).
Proof. intros w. apply Extends_refl. Qed.

Lemma Emits_Abort {A} : Emits P (@Abort A).
Proof. intros w. apply Extends_refl. Qed.

Lemma Emits_bind {A B} (m : M A) (k : A → M B) :
  Emits P m → (∀ a, Emits P (k a)) → Emits P (m ≫= k).
Proof.
  intros Hm Hk w. specialize (Hm w). unfold mbind, M_bind.
  destruct (m w) as [[a| |] w']; simpl in *; [|done|done].
  eapply Extends_trans; [exact Hm|apply Hk].
Qed.

Lemma Emits_emit e : P e → Emits P (emit e).
Proof. intros He w. exists [e]. split; [done|]. by constructor. Qed.

Lemma Emits_getContext : Emits P getContext.
Proof. intros w. apply Extends_refl. Qed.

Lemma Emits_modifyContext f : Emits P (modifyContext f).
Proof. intros w. by apply Extends_same. Qed.

Lemma Emits_setContext c : Emits P (setContext c).
Proof. intros w. by apply Extends_same. Qed.

Lemma Emits_when c m : Emits P m → Emits P (when c m).
Proof. intros Hm. destruct c; [done|apply Emits_ret]. Qed.

Lemma Emits_Get : (∀ rt, P (PoolGet rt)) → Emits P RenderTargetPool_Get.
Proof. intros HP w. eexists [_]. split; [done|]. by constructor. Qed.

Lemma Emits_Release rt : (∀ rt, P (PoolRelease rt)) → Emits P (RenderTargetPool_Release rt).
Proof.
  intros HP w. destruct rt as [rt|]; [|apply Extends_refl].
  eexists [_]. split; [done|]. by constructor.
Qed.

Lemma Emits_PingPong count : ∀ input output,
  (∀ i o, P (Run (PostFxRender i o))) → Emits P (PingPong count input output).
Proof.
  induction count as [|n IH]; intros input output HP; simpl.
  - apply Emits_ret.
  - apply Emits_bind; [by apply Emits_emit|]. intros _. by apply IH.
Qed.
End EmitsRules.

(** *** Structural rules for [KeepsContext] *)

Lemma KeepsContext_ret {A} (a : A) : KeepsContext (mret a).
Proof. done. Qed.

Lemma KeepsContext_Return {A} : KeepsContext (@Return A).
Proof. done. Qed.

Lemma KeepsContext_bind {A B} (m : M A) (k : A → M B) :
  KeepsContext m → (∀ a, KeepsContext (k a)) → KeepsContext (m ≫= k).
Proof.
  intros Hm Hk w. specialize (Hm w). unfold mbind, M_bind.
  destruct (m w) as [[a| |] w']; simpl in *; [|done|done].
  by rewrite Hk.
Qed.

Lemma KeepsContext_emit e : KeepsContext (emit e).
Proof. done. Qed.

Lemma KeepsContext_getContext : KeepsContext getContext.
Proof. done. Qed.

Lemma KeepsContext_when c m : KeepsContext m → KeepsContext (when c m).
Proof. intros Hm. destruct c; [done|apply KeepsContext_ret]. Qed.

Lemma KeepsContext_Get : KeepsContext RenderTargetPool_Get.
Proof. done. Qed.

Lemma KeepsContext_Release rt : KeepsContext (RenderTargetPool_Release rt).
Proof. by destruct rt. Qed.

Lemma KeepsContext_PingPong count : ∀ input output,
  KeepsContext (PingPong count input output).
Proof.
  induction count as [|n IH]; intros input output; simpl.
  - apply KeepsContext_ret.
  - apply KeepsContext_bind; [apply KeepsContext_emit|]. intros _. apply IH.
Qed.

(** *** Structural rules for [Quiet] *)

Lemma Quiet_ret {A} (a : A) : Quiet (mret a).
Proof. intros w. exists a. split_and!; [done|done|apply Extends_refl]. Qed.

Lemma Quiet_bind {A B} (m : M A) (k : A → M B) :
  Quiet m → (∀ a, Quiet (k a)) → Quiet (m ≫= k).
Proof.
  intros Hm Hk w. destruct (Hm w) as (a & Ha & Hp & He).
  unfold mbind, M_bind. destruct (m w) as [fl w']; simpl in *. subst fl.
  destruct (Hk a w') as (b & Hb & Hp' & He'). exists b.
  split_and!; [done|congruence|by eapply Extends_trans].
Qed.

Lemma Quiet_emit e : NotPool e → Quiet (emit e).
Proof.
  intros He w. exists (). split_and!; [done|done|].
  exists [e]. split; [done|]. by constructor.
Qed.

Lemma Quiet_getContext : Quiet getContext.
Proof. intros w. eexists. split_and!; [done|done|apply Extends_refl]. Qed.

Lemma Quiet_modifyContext f : Quiet (modifyContext f).
Proof. intros w. eexists. split_and!; [done|done|by apply Extends_same]. Qed.

Lemma Quiet_when c m : Quiet m → Quiet (when c m).
Proof. intros Hm. destruct c; [done|apply Quiet_ret]. Qed.

Lemma Quiet_Release_null : Quiet (RenderTargetPool_Release None).
Proof. intros w. eexists. split_and!; [done|done|apply Extends_refl]. Qed.

Lemma Quiet_PingPong count : ∀ input output, Quiet (PingPong count input output).
Proof.
  induction count as [|n IH]; intros input output; simpl.
  - apply Quiet_ret.
  - apply Quiet_bind; [by apply Quiet_emit|]. intros _. apply IH.
Qed.

(** *** Structural rules for [Calm] *)

Lemma Quiet_Calm {A} (m : M A) : Quiet m → Calm m.
Proof. intros Hm w. destruct (Hm w) as (a & _ & Hp & He). done. Qed.

Lemma Calm_Abort {A} : Calm (@Abort A).
Proof. intros w. split; [done|apply Extends_refl]. Qed.

Lemma Calm_Return {A} : Calm (@Return A).
Proof. intros w. split; [done|apply Extends_refl]. Qed.

Lemma Calm_setContext c : Calm (setContext c).
Proof. intros w. split; [done|by apply Extends_same]. Qed.

Lemma Calm_bind {A B} (m : M A) (k : A → M B) :
  Calm m → (∀ a, Calm (k a)) → Calm (m ≫= k).
Proof.
  intros Hm Hk w. destruct (Hm w) as (Hp & He).
  unfold mbind, M_bind. destruct (m w) as [[a| |] w']; simpl in *; [|done|done].
  destruct (Hk a w') as (Hp' & He'). split; [congruence|by eapply Extends_trans].
Qed.

Lemma Calm_when c m : Calm m → Calm (when c m).
Proof. intros Hm. destruct c; [done|]. apply Quiet_Calm, Quiet_ret. Qed.

(** *** Structural rules for [NeverAborts] *)

Lemma NeverAborts_ret {A} (a : A) : NeverAborts (mret a).
Proof. by intros w. Qed.

Lemma NeverAborts_Return {A} : NeverAborts (@Return A).
Proof. by intros w. Qed.

Lemma NeverAborts_bind {A B} (m : M A) (k : A → M B) :
  NeverAborts m → (∀ a, NeverAborts (k a)) → NeverAborts (m ≫= k).
Proof.
  intros Hm Hk w. specialize (Hm w). unfold mbind, M_bind.
  destruct (m w) as [[a| |] w']; simpl in *; [apply Hk|done|done].
Qed.

Lemma NeverAborts_emit e : NeverAborts (emit e).
Proof. by intros w. Qed.

Lemma NeverAborts_getContext : NeverAborts getContext.
Proof. by intros w. Qed.

Lemma NeverAborts_when c m : NeverAborts m → NeverAborts (when c m).
Proof. intros Hm. destruct c; [done|apply NeverAborts_ret]. Qed.

Lemma NeverAborts_Get : NeverAborts RenderTargetPool_Get.
Proof. by intros w. Qed.

Lemma NeverAborts_Release rt : NeverAborts (RenderTargetPool_Release rt).
Proof. intros w. by destruct rt. Qed.

Lemma NeverAborts_PingPong count : ∀ input output,
  NeverAborts (PingPong count input output).
Proof.
  induction count as [|n IH]; intros input output; simpl.
  - apply NeverAborts_ret.
  - apply NeverAborts_bind; [apply NeverAborts_emit|]. intros _. apply IH.
Qed.

(** *** Structural rules for [Completes] *)

Lemma Completes_ret {A} (a : A) : Completes (mret a).
Proof. intros w. by exists a. Qed.

Lemma Completes_bind {A B} (m : M A) (k : A → M B) :
  Completes m → (∀ a, Completes (k a)) → Completes (m ≫= k).
Proof.
  intros Hm Hk w. destruct (Hm w) as [a Ha]. unfold mbind, M_bind.
  destruct (m w) as [fl w']; simpl in *; subst fl. apply Hk.
Qed.

Lemma Completes_emit e : Completes (emit e).
Proof. intros w. by exists (). Qed.

Lemma Completes_getContext : Completes getContext.
Proof. intros w. by eexists. Qed.

Lemma Completes_when c m : Completes m → Completes (when c m).
Proof. intros Hm. destruct c; [done|apply Completes_ret]. Qed.

Lemma Completes_when_false m : Completes (when false m).
Proof. apply Completes_ret. Qed.

Lemma Completes_Get : Completes RenderTargetPool_Get.
Proof. intros w. by eexists. Qed.

Lemma Completes_Release rt : Completes (RenderTargetPool_Release rt).
Proof. intros w. exists (). by destruct rt. Qed.

Lemma Completes_PingPong count : ∀ input output,
  Completes (PingPong count input output).
Proof.
  induction count as [|n IH]; intros input output; simpl.
  - apply Completes_ret.
  - apply Completes_bind; [apply Completes_emit|]. intros _. apply IH.
Qed.

(** One tactic walks a block along its structure for all six predicates;
    the leaves come from the hint database [frame]. *)
Create HintDb frame discriminated.

#[local] Hint Resolve Emits_ret Emits_Return Emits_Abort Emits_getContext
  Emits_modifyContext Emits_setContext Emits_PingPong Emits_Get Emits_Release
  Emits_emit KeepsContext_ret KeepsContext_Return KeepsContext_getContext
  KeepsContext_PingPong KeepsContext_Get KeepsContext_Release KeepsContext_emit
  Quiet_ret Quiet_getContext Quiet_modifyContext Quiet_PingPong
  Quiet_Release_null Quiet_emit Calm_Abort Calm_Return Calm_setContext
  Quiet_Calm NeverAborts_ret NeverAborts_Return NeverAborts_emit
  NeverAborts_getContext NeverAborts_Get NeverAborts_Release
  NeverAborts_PingPong Completes_ret Completes_emit Completes_getContext
  Completes_when_false Completes_Get Completes_Release Completes_PingPong
  : frame.
#[local] Hint Extern 1 (NotPool _) => exact I : frame.
#[local] Hint Extern 1 (NotSort _) => exact I : frame.
#[local] Hint Extern 1 (NotTAA _) => exact I : frame.
#[local] Hint Extern 1 (AnyEvent _) => exact I : frame.

Ltac structural :=
  unfold gpu, run, from_option;
  repeat first
    [ solve [eauto 4 with frame]
    | apply Emits_bind; [|intros]
    | apply KeepsContext_bind; [|intros]
    | apply Quiet_bind; [|intros]
    | apply Calm_bind; [|intros]
    | apply NeverAborts_bind; [|intros]
    | apply Completes_bind; [|intros]
    | apply Emits_when | apply KeepsContext_when | apply Quiet_when
    | apply Calm_when | apply NeverAborts_when | apply Completes_when
    | match goal with
      | |- _ (if decide ?c then _ else _) => destruct (decide c); [try done|try done]
      | |- _ (match ?x with _ => _ end) => destruct x
      end ].

Lemma Emits_RunMaterialPostFxPass P E location input output :
  (∀ i o, P (Run (PostFxRender i o))) →
  Emits P (RunMaterialPostFxPass E location input output).
Proof. intros HP. unfold RunMaterialPostFxPass. structural. Qed.

Lemma Emits_RunCustomPostFxPass P E location input output :
  (∀ i o, P (Run (PostFxRender i o))) →
  Emits P (RunCustomPostFxPass E location input output).
Proof. intros HP. unfold RunCustomPostFxPass. structural. Qed.

Lemma Emits_RunPostFxPass P E locationA locationB inputOutput :
  (∀ i o, P (Run (PostFxRender i o))) →
  (∀ rt, P (PoolGet rt)) → (∀ rt, P (PoolRelease rt)) →
  Emits P (RunPostFxPass E locationA locationB inputOutput).
Proof. intros HP HG HR. unfold RunPostFxPass. structural. Qed.

Lemma Emits_DepthOfFieldPass_Render P E frameBuffer :
  P (Run (DepthOfFieldRender frameBuffer)) → (∀ rt, P (PoolGet rt)) →
  Emits P (DepthOfFieldPass_Render E frameBuffer).
Proof. intros HP HG. unfold DepthOfFieldPass_Render. structural. Qed.

Lemma Emits_ColorGradingPass_RenderLUT P E :
  P (Run RenderLUT) → (∀ rt, P (PoolGet rt)) →
  Emits P (ColorGradingPass_RenderLUT E).
Proof. intros HP HG. unfold ColorGradingPass_RenderLUT. structural. Qed.

Lemma Emits_MotionBlurPass_Render P E frameBuffer tempBuffer :
  P (Run (MotionBlurRender frameBuffer tempBuffer)) →
  Emits P (MotionBlurPass_Render E frameBuffer tempBuffer).
Proof. intros HP. unfold MotionBlurPass_Render. structural. Qed.

Lemma Emits_RenderAntiAliasingPass P input output :
  (∀ c, P (Gpu c)) → P (Run (FXAARender input output)) →
  P (Run (SMAARender input output)) →
  Emits P (RenderAntiAliasingPass input output).
Proof. intros HG HF HS. unfold RenderAntiAliasingPass. structural. Qed.

Lemma KeepsContext_RunMaterialPostFxPass E location input output :
  KeepsContext (RunMaterialPostFxPass E location input output).
Proof. unfold RunMaterialPostFxPass. structural. Qed.

Lemma KeepsContext_RunCustomPostFxPass E location input output :
  KeepsContext (RunCustomPostFxPass E location input output).
Proof. unfold RunCustomPostFxPass. structural. Qed.

Lemma KeepsContext_RunPostFxPass E locationA locationB inputOutput :
  KeepsContext (RunPostFxPass E locationA locationB inputOutput).
Proof. unfold RunPostFxPass. structural. Qed.

Lemma KeepsContext_DepthOfFieldPass_Render E frameBuffer :
  KeepsContext (DepthOfFieldPass_Render E frameBuffer).
Proof. unfold DepthOfFieldPass_Render. structural. Qed.

Lemma KeepsContext_ColorGradingPass_RenderLUT E :
  KeepsContext (ColorGradingPass_RenderLUT E).
Proof. unfold ColorGradingPass_RenderLUT. structural. Qed.

Lemma KeepsContext_MotionBlurPass_Render E frameBuffer tempBuffer :
  KeepsContext (MotionBlurPass_Render E frameBuffer tempBuffer).
Proof. unfold MotionBlurPass_Render. structural. Qed.

Lemma KeepsContext_RenderAntiAliasingPass input output :
  KeepsContext (RenderAntiAliasingPass input output).
Proof. unfold RenderAntiAliasingPass. structural. Qed.

Lemma Quiet_RunMaterialPostFxPass E location input output :
  Quiet (RunMaterialPostFxPass E location input output).
Proof. unfold RunMaterialPostFxPass. structural. Qed.

Lemma Quiet_RunCustomPostFxPass E location input output :
  Quiet (RunCustomPostFxPass E location input output).
Proof. unfold RunCustomPostFxPass. structural. Qed.

Lemma Quiet_RenderAntiAliasingPass input output :
  Quiet (RenderAntiAliasingPass input output).
Proof. unfold RenderAntiAliasingPass. structural. Qed.

Lemma Quiet_MotionBlurPass_Render E frameBuffer tempBuffer :
  Quiet (MotionBlurPass_Render E frameBuffer tempBuffer).
Proof. unfold MotionBlurPass_Render. structural. Qed.

Lemma Emits_RenderList_SortDrawCalls P E reverseDistance listType :
  P (Sort reverseDistance listType) →
  Emits P (RenderList_SortDrawCalls E reverseDistance listType).
Proof. intros HP. unfold RenderList_SortDrawCalls. structural. Qed.

Lemma Calm_RenderList_SortDrawCalls E reverseDistance listType :
  Calm (RenderList_SortDrawCalls E reverseDistance listType).
Proof. unfold RenderList_SortDrawCalls, emit. structural. Qed.

Lemma NeverAborts_RunMaterialPostFxPass E location input output :
  NeverAborts (RunMaterialPostFxPass E location input output).
Proof. unfold RunMaterialPostFxPass. structural. Qed.

Lemma NeverAborts_RunCustomPostFxPass E location input output :
  NeverAborts (RunCustomPostFxPass E location input output).
Proof. unfold RunCustomPostFxPass. structural. Qed.

Lemma NeverAborts_RunPostFxPass E locationA locationB inputOutput :
  NeverAborts (RunPostFxPass E locationA locationB inputOutput).
Proof. unfold RunPostFxPass. structural. Qed.

Lemma NeverAborts_DepthOfFieldPass_Render E frameBuffer :
  NeverAborts (DepthOfFieldPass_Render E frameBuffer).
Proof. unfold DepthOfFieldPass_Render. structural. Qed.

Lemma NeverAborts_ColorGradingPass_RenderLUT E :
  NeverAborts (ColorGradingPass_RenderLUT E).
Proof. unfold ColorGradingPass_RenderLUT. structural. Qed.

Lemma NeverAborts_MotionBlurPass_Render E frameBuffer tempBuffer :
  NeverAborts (MotionBlurPass_Render E frameBuffer tempBuffer).
Proof. unfold MotionBlurPass_Render. structural. Qed.

Lemma NeverAborts_RenderAntiAliasingPass input output :
  NeverAborts (RenderAntiAliasingPass input output).
Proof. unfold RenderAntiAliasingPass. structural. Qed.

Lemma Completes_RunMaterialPostFxPass E location input output :
  Completes (RunMaterialPostFxPass E location input output).
Proof. unfold RunMaterialPostFxPass. structural. Qed.

Lemma Completes_RunCustomPostFxPass E location input output :
  Completes (RunCustomPostFxPass E location input output).
Proof. unfold RunCustomPostFxPass. structural. Qed.

Lemma Completes_RunPostFxPass E locationA locationB inputOutput :
  Completes (RunPostFxPass E locationA locationB inputOutput).
Proof. unfold RunPostFxPass. structural. Qed.

Lemma Completes_DepthOfFieldPass_Render E frameBuffer :
  Completes (DepthOfFieldPass_Render E frameBuffer).
Proof. unfold DepthOfFieldPass_Render. structural. Qed.

Lemma Completes_ColorGradingPass_RenderLUT E :
  Completes (ColorGradingPass_RenderLUT E).
Proof. unfold ColorGradingPass_RenderLUT. structural. Qed.

Lemma Completes_MotionBlurPass_Render E frameBuffer tempBuffer :
  Completes (MotionBlurPass_Render E frameBuffer tempBuffer).
Proof. unfold MotionBlurPass_Render. structural. Qed.

Lemma Completes_RenderAntiAliasingPass input output :
  Completes (RenderAntiAliasingPass input output).
Proof. unfold RenderAntiAliasingPass. structural. Qed.

#[local] Hint Resolve Completes_RunMaterialPostFxPass
  Completes_RunCustomPostFxPass Completes_RunPostFxPass
  Completes_DepthOfFieldPass_Render Completes_ColorGradingPass_RenderLUT
  Completes_MotionBlurPass_Render Completes_RenderAntiAliasingPass : frame.

#[local] Hint Resolve NeverAborts_RunMaterialPostFxPass
  NeverAborts_RunCustomPostFxPass NeverAborts_RunPostFxPass
  NeverAborts_DepthOfFieldPass_Render NeverAborts_ColorGradingPass_RenderLUT
  NeverAborts_MotionBlurPass_Render NeverAborts_RenderAntiAliasingPass : frame.

#[local] Hint Resolve Emits_RunMaterialPostFxPass Emits_RunCustomPostFxPass
  Emits_RunPostFxPass Emits_DepthOfFieldPass_Render
  Emits_ColorGradingPass_RenderLUT Emits_MotionBlurPass_Render
  Emits_RenderAntiAliasingPass
  KeepsContext_RunMaterialPostFxPass KeepsContext_RunCustomPostFxPass
  KeepsContext_RunPostFxPass KeepsContext_DepthOfFieldPass_Render
  KeepsContext_ColorGradingPass_RenderLUT KeepsContext_MotionBlurPass_Render
  KeepsContext_RenderAntiAliasingPass
  Quiet_RunMaterialPostFxPass Quiet_RunCustomPostFxPass
  Quiet_RenderAntiAliasingPass Quiet_MotionBlurPass_Render
  Calm_RenderList_SortDrawCalls Emits_RenderList_SortDrawCalls : frame.

(** *** The pool discipline *)

Lemma filter_ne_id (rt : GPUTexture) (l : list GPUTexture) : rt ∉ l → filter (λ x, x ≠ rt) l = l.
Proof.
  induction l as [|x l IH]; intros Hn; [done|].
  apply not_elem_of_cons in Hn as [Hx Hl].
  rewrite filter_cons_True by done. by rewrite IH.
Qed.

Lemma filter_ne_head (rt : GPUTexture) (l : list GPUTexture) :
  rt ∉ l → filter (λ x, x ≠ rt) (rt :: l) = l.
Proof.
  intros Hn. rewrite filter_cons_False by (intros H; by apply H).
  by apply filter_ne_id.
Qed.

Lemma Replay_app held e1 e2 :
  Replay held (e1 ++ e2) = Replay held e1 ≫= λ h, Replay h e2.
Proof.
  revert held. induction e1 as [|e e1 IH]; intros held; simpl; [done|].
  destruct e; try apply IH; case_decide; try done; apply IH.
Qed.

Lemma Replay_NotPool held evs : Forall NotPool evs → Replay held evs = Some held.
Proof.
  induction 1 as [|e evs He _ IH]; [done|]. by destruct e.
Qed.

Section Discipline.
Variable w0 : World.
Hypothesis w0_wf : RenderTargetPool.WellFormed (Pool w0).

Lemma Holds_start : Holds w0 [] w0.
Proof.
  split_and!; [constructor|by intros ? ?%elem_of_nil|lia|done|].
  exists []. by rewrite app_nil_r.
Qed.

Lemma Holds_calm held w w' :
  Holds w0 held w → Pool w' = Pool w → Extends NotPool w w' → Holds w0 held w'.
Proof.
  intros (H1 & H2 & H3 & H4 & evs & H5 & H6) Hp (evs' & H7 & H8).
  split_and!; rewrite ?Hp; try done.
  exists (evs ++ evs'). rewrite H7, H5, app_assoc. split; [done|].
  rewrite Replay_app, H6. simpl. by apply Replay_NotPool.
Qed.

Lemma wp_quiet {A} (m : M A) held Q w :
  Quiet m → Holds w0 held w →
  (∀ a w', Holds w0 held w' → Q (Continue a) w') → wp m Q w.
Proof.
  intros Hm Hh HQ. destruct (Hm w) as (a & Ha & Hp & He).
  unfold wp. rewrite Ha. apply HQ. by eapply Holds_calm.
Qed.

Lemma wp_calm {A} (m : M A) held Q w :
  Calm m → Holds w0 held w →
  (∀ fl w', Holds w0 held w' → Q fl w') → wp m Q w.
Proof.
  intros Hm Hh HQ. destruct (Hm w) as (Hp & He).
  apply HQ. by eapply Holds_calm.
Qed.

Lemma wp_Get held Q w :
  Holds w0 held w →
  (∀ rt w', Holds w0 (rt :: held) w' → Q (Continue rt) w') →
  wp RenderTargetPool_Get Q w.
Proof.
  intros (H1 & H2 & H3 & H4 & evs & H5 & H6) HQ. apply HQ.
  assert (Hfresh : Pooled (RenderTargetPool.NextLease (Pool w)) ∉ held).
  { intros Hin. destruct (H2 _ Hin) as (n & Hn & Hlt). simplify_eq. lia. }
  split_and!; simpl.
  - by constructor.
  - intros rt [->|Hin]%elem_of_cons.
    + eexists. split; [done|lia].
    + destruct (H2 _ Hin) as (n & Hn & Hlt). exists n. split; [done|lia].
  - lia.
  - by rewrite H4.
  - exists (evs ++ [PoolGet (Pooled (RenderTargetPool.NextLease (Pool w)))]).
    rewrite H5, app_assoc. split; [done|].
    rewrite Replay_app, H6. simpl. by rewrite decide_False.
Qed.

Lemma Holds_not_before held w rt :
  Holds w0 held w → rt ∈ held → rt ∉ RenderTargetPool.Leased (Pool w0).
Proof.
  intros (H1 & H2 & H3 & H4 & _) Hin Hin0.
  destruct (H2 _ Hin) as (n & -> & Hlt).
  unfold RenderTargetPool.WellFormed in w0_wf.
  rewrite Forall_forall in w0_wf. apply w0_wf in Hin0. lia.
Qed.

Lemma wp_Release held rt Q w :
  Holds w0 held w → rt ∈ held →
  (∀ w', Holds w0 (filter (λ x, x ≠ rt) held) w' → Q (Continue ()) w') →
  wp (RenderTargetPool_Release (Some rt)) Q w.
Proof.
  intros Hh Hin HQ. apply HQ.
  pose proof (Holds_not_before _ _ _ Hh Hin) as Hnot.
  destruct Hh as (H1 & H2 & H3 & H4 & evs & H5 & H6).
  split_and!; simpl.
  - by apply NoDup_filter.
  - intros x [_ Hx]%list_elem_of_filter. by apply H2.
  - done.
  - rewrite H4, filter_app. f_equal. by apply filter_ne_id.
  - exists (evs ++ [PoolRelease rt]).
    rewrite H5, app_assoc. split; [done|].
    rewrite Replay_app, H6. simpl. by rewrite decide_True.
Qed.

Lemma wp_Release_head held rt Q w :
  Holds w0 (rt :: held) w →
  (∀ w', Holds w0 held w' → Q (Continue ()) w') →
  wp (RenderTargetPool_Release (Some rt)) Q w.
Proof.
  intros Hh HQ. eapply wp_Release; [exact Hh|by left|].
  intros w' Hw'. apply HQ.
  destruct Hh as (Hnd & _). apply NoDup_cons in Hnd as [Hn _].
  by rewrite filter_ne_head in Hw'.
Qed.

Lemma wp_Release_second held rt rt' Q w :
  Holds w0 (rt' :: rt :: held) w →
  (∀ w', Holds w0 (rt' :: held) w' → Q (Continue ()) w') →
  wp (RenderTargetPool_Release (Some rt)) Q w.
Proof.
  intros Hh HQ. eapply wp_Release; [exact Hh|by right; left|].
  intros w' Hw'. apply HQ.
  destruct Hh as (Hnd & _).
  apply NoDup_cons in Hnd as [Hn1 [Hn2 _]%NoDup_cons].
  rewrite filter_cons_True, filter_ne_head in Hw'; [done|done|].
  intros ->. apply Hn1. by left.
Qed.

Lemma wp_Release_option held rt Q w :
  Holds w0 (option_list rt ++ held) w →
  (∀ w', Holds w0 held w' → Q (Continue ()) w') →
  wp (RenderTargetPool_Release rt) Q w.
Proof.
  destruct rt as [rt|]; simpl.
  - apply wp_Release_head.
  - intros Hh HQ. by apply HQ.
Qed.
End Discipline.

Section DisciplineSteps.
Variable w0 : World.
Hypothesis w0_wf : RenderTargetPool.WellFormed (Pool w0).

Local Abbreviation Balanced := (Balanced w0).

Lemma wp_bind_calm {A B} (m : M A) (k : A → M B) w :
  Calm m → Holds w0 [] w →
  (∀ a w', Holds w0 [] w' → wp (k a) Balanced w') →
  wp (m ≫= k) Balanced w.
Proof.
  intros Hm Hh Hk. apply wp_bind. eapply wp_calm; [exact Hm|exact Hh|].
  intros [a| |] w' Hw'; [by apply Hk|done|done].
Qed.

Lemma wp_bind_quiet {A B} (m : M A) (k : A → M B) held Q w :
  Quiet m → Holds w0 held w →
  (∀ a w', Holds w0 held w' → wp (k a) Q w') →
  wp (m ≫= k) Q w.
Proof.
  intros Hm Hh Hk. apply wp_bind. eapply wp_quiet; [exact Hm|exact Hh|].
  intros a w' Hw'. by apply Hk.
Qed.

Lemma wp_bind_Get {B} (k : GPUTexture → M B) held Q w :
  Holds w0 held w →
  (∀ rt w', Holds w0 (rt :: held) w' → wp (k rt) Q w') →
  wp (RenderTargetPool_Get ≫= k) Q w.
Proof.
  intros Hh Hk. apply wp_bind. eapply wp_Get; [exact Hh|].
  intros rt w' Hw'. by apply Hk.
Qed.

Lemma wp_bind_Release_head {B} (k : unit → M B) held rt Q w :
  Holds w0 (rt :: held) w →
  (∀ w', Holds w0 held w' → wp (k ()) Q w') →
  wp (RenderTargetPool_Release (Some rt) ≫= k) Q w.
Proof.
  intros Hh Hk. apply wp_bind. eapply wp_Release_head; [exact w0_wf|exact Hh|].
  intros w' Hw'. by apply Hk.
Qed.

Lemma wp_bind_Release_option {B} (k : unit → M B) held rt Q w :
  Holds w0 (option_list rt ++ held) w →
  (∀ w', Holds w0 held w' → wp (k ()) Q w') →
  wp (RenderTargetPool_Release rt ≫= k) Q w.
Proof.
  intros Hh Hk. apply wp_bind. eapply wp_Release_option; [exact w0_wf|exact Hh|].
  intros w' Hw'. by apply Hk.
Qed.

Lemma PingPong_result count : ∀ input output w,
  ∃ a, (PingPong count input output w).1 = Continue a ∧
       (a = (input, output) ∨ a = (output, input)) ∧
       Pool (PingPong count input output w).2 = Pool w ∧
       Extends NotPool w (PingPong count input output w).2.
Proof.
  induction count as [|n IH]; intros input output w.
  - exists (input, output). split_and!; [done|by left|done|apply Extends_refl].
  - destruct (IH output input (emit (Run (PostFxRender input output)) w).2)
      as (a & Ha & Hor & Hp & He).
    exists a. simpl. unfold mbind, M_bind, run. simpl.
    split_and!; [done|tauto|done|].
    eapply Extends_trans; [|exact He]. exists [Run (PostFxRender input output)].
    split; [done|]. by constructor.
Qed.

Lemma wp_bind_RunPostFxPass {B} E locationA locationB lightBuffer
    (k : GPUTexture → M B) Q w :
  Holds w0 [lightBuffer] w →
  (∀ rt w', Holds w0 [rt] w' → wp (k rt) Q w') →
  wp (RunPostFxPass E locationA locationB lightBuffer ≫= k) Q w.
Proof.
  intros Hh Hk. apply wp_bind. unfold RunPostFxPass.
  apply wp_bind, wp_getContext.
  destruct (_ + _)%nat as [|n] eqn:Hcount.
  - apply wp_ret. by apply Hk.
  - eapply wp_bind_Get; [exact Hh|]. intros temp w1 H1.
    apply wp_bind.
    destruct (PingPong_result (S n) lightBuffer temp w1) as (a & Ha & Hor & Hp & He).
    unfold wp at 1. rewrite Ha.
    pose proof (Holds_calm _ _ _ _ H1 Hp He) as H2.
    destruct Hor as [-> | ->].
    + eapply wp_bind_Release_head; [exact H2|]. intros w3 H3.
      apply wp_ret. by apply Hk.
    + apply wp_bind. eapply wp_Release_second; [exact w0_wf|exact H2|].
      intros w3 H3. apply wp_ret. by apply Hk.
Qed.

Lemma wp_bind_DepthOfFieldPass_Render {B} E frameBuffer
    (k : option GPUTexture → M B) held Q w :
  Holds w0 held w →
  (∀ rt w', Holds w0 (option_list rt ++ held) w' → wp (k rt) Q w') →
  wp (DepthOfFieldPass_Render E frameBuffer ≫= k) Q w.
Proof.
  intros Hh Hk. apply wp_bind. unfold DepthOfFieldPass_Render.
  eapply wp_bind_quiet; [structural|exact Hh|]. intros _ w1 H1.
  apply wp_bind, wp_getContext.
  destruct (Engine.DepthOfFieldActive _ _).
  - eapply wp_bind_Get; [exact H1|]. intros rt w2 H2.
    apply wp_ret. by apply (Hk (Some rt)).
  - apply wp_ret. by apply (Hk None).
Qed.

Lemma wp_bind_ColorGradingPass_RenderLUT {B} E
    (k : option GPUTexture → M B) held Q w :
  Holds w0 held w →
  (∀ rt w', Holds w0 (option_list rt ++ held) w' → wp (k rt) Q w') →
  wp (ColorGradingPass_RenderLUT E ≫= k) Q w.
Proof.
  intros Hh Hk. apply wp_bind. unfold ColorGradingPass_RenderLUT.
  eapply wp_bind_quiet; [structural|exact Hh|]. intros _ w1 H1.
  apply wp_bind, wp_getContext.
  destruct (Engine.ColorGradingActive _ _).
  - eapply wp_bind_Get; [exact H1|]. intros rt w2 H2.
    apply wp_ret. by apply (Hk (Some rt)).
  - apply wp_ret. by apply (Hk None).
Qed.

(** One step of the walk through [RenderInner]. *)
Ltac frame_step :=
  cbv beta iota zeta;
  lazymatch goal with
  | H : Holds w0 [] ?w |- Balanced _ ?w => exact H
  | |- wp Return _ _ => apply wp_Return
  | |- wp (mret _) _ _ => apply wp_ret
  | |- wp (when ?c _) _ _ =>
      destruct c;
      lazymatch goal with
      | |- wp (when true ?m) ?Q ?w => change (wp m Q w)
      | |- wp (when false ?m) ?Q ?w => change (wp (mret ()) Q w)
      end
  | |- wp (match ?x with _ => _ end) _ _ => destruct x
  | H : Holds w0 [] ?w |- wp (_ ≫= _) Balanced ?w =>
      first
        [ eapply wp_bind_calm; [solve [structural]|exact H|]; clear H; intros ? ? H
        | eapply wp_bind_DepthOfFieldPass_Render; [exact H|]; clear H; intros ? ? H
        | eapply wp_bind_ColorGradingPass_RenderLUT; [exact H|]; clear H; intros ? ? H
        | eapply wp_bind_Get; [exact H|]; clear H; intros ? ? H ]
  | H : Holds w0 ?held ?w |- wp (_ ≫= _) _ ?w =>
      first
        [ eapply wp_bind_quiet; [solve [structural]|exact H|]; clear H; intros ? ? H
        | eapply wp_bind_Release_head; [exact H|]; clear H; intros ? H
        | eapply wp_bind_Release_option; [exact H|]; clear H; intros ? H
        | eapply wp_bind_RunPostFxPass; [exact H|]; clear H; intros ? ? H
        | eapply wp_bind_DepthOfFieldPass_Render; [exact H|]; clear H; intros ? ? H
        | eapply wp_bind_ColorGradingPass_RenderLUT; [exact H|]; clear H; intros ? ? H
        | eapply wp_bind_Get; [exact H|]; clear H; intros ? ? H
        | apply wp_bind ]
  | H : Holds w0 [] ?w |- wp _ Balanced ?w =>
      eapply wp_calm; [solve [structural]|exact H|]; intros ? ? ?; assumption
  end.

Lemma RenderInner_Balanced E : wp (RenderInner E) Balanced w0.
Proof.
  pose proof Holds_start w0 as H.
  unfold RenderInner.
  repeat frame_step.
Qed.
End DisciplineSteps.

(** C3. Whatever branch [RenderInner] takes, it releases every scratch
    render target it acquired from the pool, each exactly once: replaying
    the pool events of the invocation never releases a target that is not
    held, never acquires one that is, and ends with nothing held; the pool
    has the same targets checked out after the call as before. *)
Theorem RenderInner_releases_scratch_targets E w :
  RenderTargetPool.WellFormed (Pool w) →
  ∃ evs,
    Trace (RenderInner E w).2 = Trace w ++ evs ∧
    Replay [] evs = Some [] ∧
    RenderTargetPool.Leased (Pool (RenderInner E w).2)
    = RenderTargetPool.Leased (Pool w).
Proof.
  intros Hwf. pose proof (RenderInner_Balanced w Hwf E) as H.
  unfold wp, Balanced in H.
  destruct H as (_ & _ & _ & Hl & evs & Ht & Hr).
  exists evs. done.
Qed.

(** *** Walking the prologue with the state at hand *)

Lemma wp_passive {A} (m : M A) P Q w :
  Emits P m → KeepsContext m →
  (∀ fl w', Extends P w w' → Context w' = Context w → Q fl w') →
  wp m Q w.
Proof. intros He Hk HQ. apply HQ; [apply He|apply Hk]. Qed.

Lemma wp_bind_sort {B} E reverseDistance listType (k : unit → M B) Q w :
  let l := RenderContext.List (Context w) in
  let w1 := MkWorld (Context w) (Pool w) (Trace w ++ [Sort reverseDistance listType]) in
  (SortDrawCalls (Engine.GetHash E) (Engine.CanBatch E)
     (Engine.InstancingAchievable E) (RenderList.DrawCalls l)
     reverseDistance (RenderList.DrawCallsLists l listType) = None →
   Q Aborted w1) →
  (∀ sorted,
     SortDrawCalls (Engine.GetHash E) (Engine.CanBatch E)
       (Engine.InstancingAchievable E) (RenderList.DrawCalls l)
       reverseDistance (RenderList.DrawCallsLists l listType) = Some sorted →
     wp (k ())  Q
        (MkWorld (RenderContext.SetList
                    (RenderList.SetDrawCallsList listType sorted l) (Context w))
           (Pool w) (Trace w ++ [Sort reverseDistance listType]))) →
  wp (RenderList_SortDrawCalls E reverseDistance listType ≫= k) Q w.
Proof.
  intros l w1 Habort Hk. apply wp_bind. unfold RenderList_SortDrawCalls.
  apply wp_bind, wp_emit. apply wp_bind, wp_getContext.
  cbn [Context Pool Trace]. fold l.
  destruct (SortDrawCalls _ _ _ _ _ _) as [sorted|] eqn:Hs.
  - apply wp_setContext. cbn [Context Pool Trace]. by apply Hk.
  - apply wp_Abort. by apply Habort.
Qed.

Lemma SortEvents_app t1 t2 : SortEvents (t1 ++ t2) = SortEvents t1 ++ SortEvents t2.
Proof. apply omap_app. Qed.

Lemma SortEvents_NotSort evs : Forall NotSort evs → SortEvents evs = [].
Proof. induction 1 as [|e evs He _ IH]; [done|]. by destruct e. Qed.

Ltac state_simpl :=
  cbn [Context Pool Trace RenderContext.List RenderContext.SetList
       RenderContext.View RenderContext.SetView RenderContext.Task
       RenderContext.SetTask RenderContext.Buffers
       RenderList.DrawCalls RenderList.DrawCallsLists
       RenderList.SetDrawCallsList RenderList.Settings RenderList.SetSettings
       RenderList.SetPostFx RenderList.SetBlendable RenderList.Blendable
       RenderList.PostFx CollectDrawCalls
       SceneRenderTask.Scene SceneRenderTask.CameraCut SceneRenderTask.Volumes
       SceneRenderTask.CustomPostFx SceneRenderTask.RenderingPercentage
       RenderView.SetPass RenderView.Mode RenderView.Flags
       RenderView.IsOrthographicProjection
       PostProcessSettings.SetAntiAliasingMode
       PostProcessSettings.AntiAliasing_Mode] in *.

(** One step through a statement of the prologue. *)
Ltac prologue_step :=
  cbv beta iota zeta; unfold run, gpu;
  lazymatch goal with
  | |- wp (getContext ≫= _) _ _ => apply wp_bind, wp_getContext
  | |- wp (modifyContext _ ≫= _) _ _ => apply wp_bind, wp_modifyContext
  | |- wp (emit _ ≫= _) _ _ => apply wp_bind, wp_emit
  | |- wp (RenderList_SortDrawCalls _ _ _ ≫= _) _ _ =>
      apply wp_bind_sort; [intros ?; try (by intros ?)|intros ? ?]
  | |- wp (from_option mret Abort ?x ≫= _) _ _ =>
      apply wp_bind; destruct x eqn:?;
      [apply wp_ret|apply wp_Abort; cbv beta iota; try (by intros ?)]
  | |- wp (when ?c _ ≫= _) _ _ =>
      apply wp_bind; destruct c eqn:?;
      lazymatch goal with
      | |- wp (when true ?m) ?Q ?w => change (wp m Q w)
      | |- wp (when false ?m) ?Q ?w => change (wp (mret ()) Q w)
      end
  | |- wp (match ?x with _ => _ end ≫= _) _ _ =>
      apply wp_bind; destruct x eqn:?
  | |- wp (mret _) _ _ => apply wp_ret
  | |- wp Abort _ _ => apply wp_Abort; cbv beta iota; try (by intros ?)
  | |- wp (modifyContext _) _ _ => apply wp_modifyContext
  | |- wp (emit _) _ _ => apply wp_emit
  | |- wp (match ?x with _ => _ end) _ _ => destruct x eqn:?
  end; state_simpl.

Section SortsProof.
Variable E : Engine.t.
Variable w0 : World.

Lemma RenderInner_SortedFrame : wp (RenderInner E) (SortedFrame E w0) w0.
Proof.
  unfold RenderInner.
  repeat prologue_step.
  all: eapply (wp_passive _ NotSort); [structural|structural|].
  all: intros fl w' (evs & Ht & Hf) Hc _; state_simpl.
  all: rewrite Ht, <- !app_assoc.
  all: eexists; split; [reflexivity|].
  all: split; [by rewrite !SortEvents_app, (SortEvents_NotSort _ Hf)|].
  all: intros r ty Hin; rewrite Hc; state_simpl; unfold FrameSorts in Hin.
  all: repeat (apply elem_of_cons in Hin as [Heq|Hin];
               [injection Heq as -> ->; repeat (case_decide; try done)|]).
  all: by apply elem_of_nil in Hin.
Qed.
End SortsProof.

(** *** Frames that pass their assertions *)

Lemma NeedMotionVectors_is_Some E renderContext buffers :
  RenderContext.Buffers renderContext = Some buffers →
  is_Some (NeedMotionVectors E renderContext).
Proof.
  intros Hb. unfold NeedMotionVectors. rewrite Hb. simpl.
  destruct (_ || _); eauto.
Qed.

Lemma wp_NeverAborts {A} (m : M A) w :
  NeverAborts m → wp m (λ fl _, fl ≠ Aborted) w.
Proof. intros Hm. apply Hm. Qed.

(** With valid buffers and a scene whose lists name collected calls, no
    assertion of [RenderInner] fails. *)
Lemma RenderInner_runs E w buffers :
  RenderContext.Buffers (Context w) = Some buffers →
  0 < RenderBuffers.Width buffers →
  SceneIndicesValid (SceneRenderTask.Scene (RenderContext.Task (Context w))) →
  (RenderInner E w).1 ≠ Aborted.
Proof.
  intros Hb Hw Hvalid.
  change (wp (RenderInner E) (λ fl _, fl ≠ Aborted) w).
  unfold RenderInner.
  repeat prologue_step.
  all: try (apply wp_NeverAborts; solve [structural]).
  all: exfalso.
  all: try congruence.
  all: try (simplify_eq; apply Z.ltb_ge in Heqb; lia).
  all: try (match goal with
            | H : NeedMotionVectors _ ?rc = None,
              Hs : RenderContext.Buffers _ = Some ?t |- _ =>
                destruct (NeedMotionVectors_is_Some E rc t Hs); congruence
            end).
  all: repeat (case_decide; try done).
  all: match goal with
       | H : SortDrawCalls _ _ _ ?calls ?r (SceneData.DrawCallsLists ?sc ?ty) = None |- _ =>
           destruct (SortDrawCalls_Some (Engine.GetHash E) (Engine.CanBatch E)
                       (Engine.InstancingAchievable E) calls r
                       (SceneData.DrawCallsLists sc ty) (Hvalid ty));
           congruence
       end.
Qed.

Lemma wp_bind_keeps {A B} (m : M A) (k : A → M B) Q w :
  Completes m → KeepsContext m →
  (∀ a w', Context w' = Context w → wp (k a) Q w') →
  wp (m ≫= k) Q w.
Proof.
  intros Hm Hc Hk. unfold wp, mbind, M_bind.
  destruct (Hm w) as [a Ha]. specialize (Hc w).
  destruct (m w) as [fl w']; simpl in *; subst fl. by apply Hk.
Qed.

Lemma wp_Completes (m : M unit) (P : Prop) w :
  Completes m → wp m (λ fl _, P → fl = Continue ()) w.
Proof. intros Hm _. destruct (Hm w) as [[] Ha]. exact Ha. Qed.

(** Outside the view modes of [ReturnsEarly] no branch of [RenderInner]
    returns early: a frame that passes its assertions runs to the
    anti-aliasing resolve. *)
Lemma RenderInner_reaches_resolve E w :
  ReturnsEarly E (RenderView.Mode (RenderContext.View (Context w))) = false →
  (RenderInner E w).1 ≠ Aborted →
  (RenderInner E w).1 = Continue ().
Proof.
  intros Hearly. unfold ReturnsEarly in Hearly.
  repeat match goal with
         | H : _ || _ = false |- _ => apply orb_false_iff in H as [? ?]
         end.
  change (wp (RenderInner E) (λ fl _, fl ≠ Aborted → fl = Continue ()) w).
  unfold RenderInner.
  repeat prologue_step.
  all: apply wp_bind_keeps; [solve [structural]|solve [structural]|].
  all: intros lightBuffer w' Hc.
  all: apply wp_bind, wp_getContext; cbv beta iota zeta.
  all: rewrite Hc; state_simpl.
  all: repeat match goal with
              | H : ?c = false |- context [?c] => rewrite H
              end.
  all: cbv beta iota; cbn [orb].
  all: apply wp_Completes; solve [structural].
Qed.


(** *** Temporal anti-aliasing and orthographic views *)

Lemma EffectiveAntiAliasingMode_ortho renderContext :
  RenderView.IsOrthographicProjection (RenderContext.View renderContext) = true →
  EffectiveAntiAliasingMode renderContext ≠ AntialiasingMode.TemporalAntialiasing.
Proof.
  intros Ho. unfold EffectiveAntiAliasingMode. rewrite Ho.
  destruct (RenderView.Flags _ _); [|done].
  case_bool_decide as Hm; simpl; [done|exact Hm].
Qed.

Lemma EffectiveAntiAliasingMode_downgrade renderContext :
  RenderView.IsOrthographicProjection (RenderContext.View renderContext) = true →
  PostProcessSettings.AntiAliasing_Mode
    (RenderList.Settings (RenderContext.List renderContext))
  = AntialiasingMode.TemporalAntialiasing →
  EffectiveAntiAliasingMode renderContext = AntialiasingMode.None.
Proof.
  intros Ho Hm. unfold EffectiveAntiAliasingMode. rewrite Ho, Hm.
  by destruct (RenderView.Flags _ _).
Qed.

Section OrthographicProof.
Variable E : Engine.t.
Variable w0 : World.
Hypothesis ortho :
  RenderView.IsOrthographicProjection (RenderContext.View (Context w0)) = true.
Hypothesis blended :
  PostProcessSettings.AntiAliasing_Mode (BlendedSettings E (Context w0))
  = AntialiasingMode.TemporalAntialiasing.

Lemma RenderInner_Downgraded : wp (RenderInner E) (Downgraded w0) w0.
Proof.
  unfold RenderInner.
  unfold BlendedSettings in blended.
  repeat prologue_step.
  all: match goal with
       | |- context [EffectiveAntiAliasingMode ?rc] =>
           pose proof (EffectiveAntiAliasingMode_ortho rc ortho) as Hno;
           pose proof (EffectiveAntiAliasingMode_downgrade rc ortho blended) as Hnone
       end.
  all: eapply (wp_passive _ NotTAA); [structural|structural|].
  all: intros fl w' (evs & Ht & Hf) Hc _; state_simpl.
  all: rewrite Ht, <- !app_assoc.
  all: eexists; split; [reflexivity|].
  all: split; [repeat (apply Forall_app; split; [by repeat constructor|]); done|].
  all: rewrite Hc; state_simpl; exact Hnone.
Qed.
End OrthographicProof.

(** *** The anti-aliasing resolve *)

Lemma RenderAntiAliasingPass_spec input output w :
  RenderAntiAliasingPass input output w
  = (Continue (),
     MkWorld (Context w) (Pool w)
       (Trace w ++ AntiAliasingTrace
          (PostProcessSettings.AntiAliasing_Mode
             (RenderList.Settings (RenderContext.List (Context w))))
          input output)).
Proof.
  unfold RenderAntiAliasingPass, AntiAliasingTrace, gpu, run, mbind, M_bind, emit,
    getContext. simpl.
  destruct (PostProcessSettings.AntiAliasing_Mode _); simpl;
    by rewrite <- ?app_assoc.
Qed.

Lemma PingPong_spec count : ∀ input output w,
  ∃ a evs,
    PingPong count input output w
    = (Continue a, MkWorld (Context w) (Pool w) (Trace w ++ evs)) ∧
    Forall IsPostFx evs ∧ length evs = count.
Proof.
  induction count as [|n IH]; intros input output w.
  - exists (input, output), []. rewrite app_nil_r. by destruct w.
  - destruct (IH output input (emit (Run (PostFxRender input output)) w).2)
      as (a & evs & Hr & Hf & Hl).
    exists a, (Run (PostFxRender input output) :: evs).
    simpl. unfold mbind, M_bind, run. simpl. simpl in Hr. rewrite Hr.
    rewrite <- app_assoc. split_and!; [done|by constructor|by rewrite Hl].
Qed.

Lemma PingPong_same count : ∀ buffer w,
  PingPong count buffer buffer w
  = (Continue (buffer, buffer),
     MkWorld (Context w) (Pool w)
       (Trace w ++ replicate count (Run (PostFxRender buffer buffer)))).
Proof.
  induction count as [|n IH]; intros buffer w.
  - simpl. rewrite app_nil_r. by destruct w.
  - simpl. unfold mbind, M_bind, run. simpl. rewrite IH. simpl.
    by rewrite <- app_assoc.
Qed.

Lemma bind_eq {A B} (m : M A) (k : A → M B) w a w' :
  m w = (Continue a, w') → (m ≫= k) w = k a w'.
Proof. intros H. unfold mbind, M_bind. by rewrite H. Qed.

Lemma emit_eq e w :
  emit e w = (Continue (), MkWorld (Context w) (Pool w) (Trace w ++ [e])).
Proof. done. Qed.

Lemma RunCustomPostFxPass_spec E location input output w :
  ∃ a evs,
    RunCustomPostFxPass E location input output w
    = (Continue a, MkWorld (Context w) (Pool w) (Trace w ++ evs)) ∧
    Forall IsPostFx evs ∧
    length evs = Engine.CustomPostFxCount E (Context w) location.
Proof.
  unfold RunCustomPostFxPass, mbind, M_bind, getContext.
  apply PingPong_spec.
Qed.

Lemma RunMaterialPostFxPass_spec E location input output w :
  ∃ a evs,
    RunMaterialPostFxPass E location input output w
    = (Continue a, MkWorld (Context w) (Pool w) (Trace w ++ evs)) ∧
    Forall IsPostFx evs ∧
    length evs = Engine.MaterialPostFxCount E (Context w) location.
Proof.
  unfold RunMaterialPostFxPass, mbind, M_bind, getContext.
  apply PingPong_spec.
Qed.

Lemma RunCustomPostFxPass_same E location buffer w :
  RunCustomPostFxPass E location buffer buffer w
  = (Continue (buffer, buffer),
     MkWorld (Context w) (Pool w)
       (Trace w ++ replicate (Engine.CustomPostFxCount E (Context w) location)
                     (Run (PostFxRender buffer buffer)))).
Proof.
  unfold RunCustomPostFxPass, mbind, M_bind, getContext.
  apply PingPong_same.
Qed.

Section ResolveProof.
Variable E : Engine.t.
Variable w0 : World.

Local Abbreviation Resolved := (Resolved E w0).

Lemma wp_bind_trace {A} (m : M A) (k : A → M ()) w :
  Emits AnyEvent m → Extends AnyEvent w0 w →
  (∀ a w', Extends AnyEvent w0 w' → wp (k a) Resolved w') →
  wp (m ≫= k) Resolved w.
Proof.
  intros Hm Hx Hk. apply wp_bind. unfold wp at 1.
  specialize (Hm w). destruct (m w) as [[a| |] w']; simpl in *.
  - apply Hk. by eapply Extends_trans.
  - by intros ?.
  - by intros ?.
Qed.

Lemma wp_bind_passive {A} (m : M A) (k : A → M ()) c w :
  Emits AnyEvent m → KeepsContext m →
  Extends AnyEvent w0 w → Context w = c →
  (∀ a w', Extends AnyEvent w0 w' → Context w' = c → wp (k a) Resolved w') →
  wp (m ≫= k) Resolved w.
Proof.
  intros Hm Hc Hx Hctx Hk. apply wp_bind. unfold wp at 1.
  specialize (Hm w). specialize (Hc w). destruct (m w) as [[a| |] w']; simpl in *.
  - apply Hk; [by eapply Extends_trans|congruence].
  - by intros ?.
  - by intros ?.
Qed.

Lemma Extends_any w evs : Extends AnyEvent w0 w →
  ∃ pre, Trace w ++ evs = Trace w0 ++ pre ++ evs.
Proof. intros (pre & Hp & _). exists pre. by rewrite Hp, app_assoc. Qed.

Lemma RenderInner_Resolved : wp (RenderInner E) Resolved w0.
Proof.
  pose proof (Extends_refl AnyEvent w0) as Hx.
  unfold RenderInner.
  repeat (cbv beta iota zeta;
          lazymatch goal with
          | |- wp (RenderTargetPool_Get ≫= _) _ _ => fail
          | |- wp (_ ≫= _) _ _ =>
              eapply wp_bind_trace; [solve [structural]|exact Hx|];
              clear Hx; intros ? ? Hx
          end).
  eapply wp_bind_trace; [solve [structural]|exact Hx|]; clear Hx; intros lightBuffer w1 Hx.
  apply wp_bind, wp_getContext. cbv beta iota zeta.
  remember (Context w1) as renderContext eqn:Hctx. symmetry in Hctx.
  repeat (cbv beta iota zeta;
          lazymatch goal with
          | |- wp (match ?p with (_, _) => _ end) _ _ => destruct p
          | |- wp (_ ≫= _) _ _ =>
              eapply wp_bind_passive; [solve [structural]|solve [structural]|exact Hx|exact Hctx|];
              clear Hx Hctx; intros ? ? Hx Hctx
          end).
  match goal with |- wp _ _ ?w => rename w into wf end.
  unfold wp, Resolved.
  destruct (negb _ && _) eqn:Hfork.
  - rewrite RenderAntiAliasingPass_spec. cbn [fst snd Context Trace].
    intros _. destruct (Extends_any wf (AntiAliasingTrace
      (PostProcessSettings.AntiAliasing_Mode
         (RenderList.Settings (RenderContext.List (Context wf)))) g11 OutputView) Hx)
      as (pre & Hpre).
    eexists pre, _. split; [exact Hpre|].
    unfold AntiAliasingResolved. exists g11. rewrite Hctx, Hfork. done.
  - rewrite (bind_eq _ _ _ _ _ (RenderAntiAliasingPass_spec _ _ _)).
    unfold gpu, run.
    rewrite (bind_eq _ _ _ _ _ (emit_eq _ _)). cbn [Context Pool Trace].
    match goal with
    | |- context [mbind _ (RunCustomPostFxPass E ?l ?i ?o) ?w] =>
        destruct (RunCustomPostFxPass_spec E l i o w)
          as ([fb1 tb1] & evs1 & Hr1 & Hf1 & Hl1)
    end.
    rewrite (bind_eq _ _ _ _ _ Hr1). cbn [Context Pool Trace] in *.
    match goal with
    | |- context [mbind _ (RunMaterialPostFxPass E ?l ?i ?o) ?w] =>
        destruct (RunMaterialPostFxPass_spec E l i o w)
          as ([fb2 tb2] & evs2 & Hr2 & Hf2 & Hl2)
    end.
    rewrite (bind_eq _ _ _ _ _ Hr2). cbn [Context Pool Trace] in *.
    assert (Hshape : ∀ fin ctx tr,
      tr = ((((Trace wf ++ AntiAliasingTrace
         (PostProcessSettings.AntiAliasing_Mode
            (RenderList.Settings (RenderContext.List (Context wf))))
         g11 (TextureView g12)) ++ [Gpu ResetRenderTarget]) ++ evs1) ++ evs2) ++ fin →
      ctx = Context wf →
      fin = (if Qle_bool 1 (SceneRenderTask.RenderingPercentage
                              (RenderContext.Task renderContext)) then
               [Gpu (SetRenderTarget OutputView);
                Gpu (SetViewportAndScissors OutputViewport);
                Gpu (Draw fb2)]
             else if HasAnyPostFx E renderContext
                       PostProcessEffectLocation.CustomUpscale
                       MaterialPostFxLocation.MAX then
               replicate
                 (Engine.CustomPostFxCount E renderContext
                    PostProcessEffectLocation.CustomUpscale)
                 (Run (PostFxRender fb2 fb2))
             else [Run (MultiScalerUpscale fb2 OutputView)]) →
      ∃ pre resolve, tr = Trace w0 ++ pre ++ resolve ∧
                     AntiAliasingResolved E ctx resolve).
    { intros fin ctx tr Ht Hc Hfin. destruct Hx as (pre & Hpre & _).
      exists pre. eexists. split.
      - rewrite Ht, Hpre, <- !app_assoc. reflexivity.
      - unfold AntiAliasingResolved. exists g11.
        rewrite Hc, Hctx, Hfork. exists g12, fb2, (evs1 ++ evs2).
        split_and!.
        + by apply Forall_app.
        + rewrite length_app, Hl1, Hl2, Hctx. done.
        + rewrite Hfin, <- !app_assoc. reflexivity. }
    destruct (Qle_bool 1 _) eqn:Hfull.
    + rewrite !(bind_eq _ _ _ _ _ (emit_eq _ _)), emit_eq.
      cbn [fst snd Context Pool Trace]. intros _.
      eapply Hshape; [|done|done]. by rewrite <- !app_assoc.
    + destruct (HasAnyPostFx E renderContext PostProcessEffectLocation.CustomUpscale
                  MaterialPostFxLocation.MAX) eqn:Hup.
      * rewrite (bind_eq _ _ _ _ _ (RunCustomPostFxPass_same _ _ _ _)).
        cbn [fst snd Context Pool Trace mret M_ret]. intros _.
        eapply Hshape; [done|done|]. by rewrite Hctx.
      * rewrite emit_eq. cbn [fst snd Context Pool Trace]. intros _.
        eapply Hshape; [done|done|done].
Qed.
End ResolveProof.

(** ** Proofs: the render list pool *)

Lemma Clear_IsCleared l : RenderList.IsCleared (RenderList.Clear l).
Proof. split_and!; done. Qed.

Lemma New_IsCleared : RenderList.IsCleared RenderList.New.
Proof. split_and!; done. Qed.

Lemma GetFromPool_allocated pool cache pool1 :
  RenderListPool.WellFormed pool →
  RenderListPool.GetFromPool pool = (cache, pool1) →
  is_Some (RenderListPool.Heap pool1 !! cache).
Proof.
  unfold RenderListPool.WellFormed, RenderListPool.GetFromPool.
  intros Hwf Hget. destruct (RenderListPool.FreeRenderList pool) as [|c rest].
  - simplify_eq/=. rewrite lookup_insert_eq. eauto.
  - simplify_eq/=. by apply Forall_cons in Hwf as [? _].
Qed.

(** C5. A list taken from the pool, used in any way and returned, is what
    the next [GetFromPool] hands out, and it is then fully cleared: no draw
    calls, and every per-pass list has empty [Indices],
    [PreBatchedDrawCalls] and [Batches]. *)
Theorem GetFromPool_after_ReturnToPool_is_cleared pool use cache pool1 cache' pool3 :
  RenderListPool.WellFormed pool →
  RenderListPool.GetFromPool pool = (cache, pool1) →
  RenderListPool.GetFromPool
    (RenderListPool.ReturnToPool cache (RenderListPool.Mutate cache use pool1))
  = (cache', pool3) →
  cache' = cache ∧
  ∃ l, RenderListPool.Heap pool3 !! cache' = Some l ∧
       RenderList.DrawCalls l = [] ∧
       (∀ ty, DrawCallsList.Indices (RenderList.DrawCallsLists l ty) = [] ∧
              DrawCallsList.PreBatchedDrawCalls (RenderList.DrawCallsLists l ty) = [] ∧
              DrawCallsList.Batches (RenderList.DrawCallsLists l ty) = []) ∧
       RenderList.IsCleared l.
Proof.
  intros Hwf Hget Hget'.
  destruct (GetFromPool_allocated _ _ _ Hwf Hget) as [l0 Hl0].
  unfold RenderListPool.GetFromPool, RenderListPool.ReturnToPool,
    RenderListPool.Mutate in Hget'. simpl in Hget'. simplify_eq.
  split; [done|].
  exists (RenderList.Clear (use l0)). simpl.
  rewrite !lookup_alter_eq, Hl0. simpl.
  split_and!; [done|done|done|apply Clear_IsCleared].
Qed.

(** ** Proofs: renderer service start-up *)

Lemma InitChildServices_PassList passInit passes : ∀ s,
  RendererService.PassList (RendererService.InitChildServices passInit passes s).2
  = RendererService.PassList s.
Proof.
  induction passes as [|p rest IH]; intros s; simpl; [done|].
  destruct (passInit p); [done|]. by rewrite IH.
Qed.

(** C8 (as amended). With the null backend [RendererService::Init] still
    registers every pass in [PassList], but it skips their initialisation:
    it reports success, calls [Init] on no pass and logs no fatal error. *)
Theorem Init_Null_skips_pass_initialisation useEditor passInit s :
  let result := RendererService.Init useEditor RendererType.Null passInit s in
  result.1 = false ∧
  RendererService.InitCalls result.2 = RendererService.InitCalls s ∧
  RendererService.FatalLog result.2 = RendererService.FatalLog s ∧
  RendererService.PassList result.2
  = RendererService.PassList s ++ RendererService.RegisteredPasses useEditor.
Proof. unfold RendererService.Init. rewrite decide_True by done. done. Qed.

(** C8 as stated does not hold: with the null backend the registration is
    not skipped; after [Init] the pass list holds the 22 passes. *)
Lemma Init_Null_registers_passes :
  let result := RendererService.Init false RendererType.Null (λ _, false)
                  RendererService.Start in
  result.1 = false ∧
  RendererService.PassList result.2 ≠ RendererService.PassList RendererService.Start ∧
  length (RendererService.PassList result.2) = 22%nat.
Proof. split_and!; [reflexivity|discriminate|reflexivity]. Qed.

(** ** Proofs: motion vectors *)


(** ** The claims about the frame orchestrator *)

(** C6. On a frame with buffers of positive width and a scene whose
    per-pass lists name collected draw calls, [RenderInner] fails no
    assertion and sorts the GBuffer, GBufferNoDecals and Distortion lists
    with [reverseDistance = false] and the Forward list with
    [reverseDistance = true], in this order and with no other sort; the
    per-pass lists of the frame are then the sorted lists of the scene, their
    keys ascend, and executing such a list draws its calls exactly in the
    sorted order. *)
Theorem RenderInner_sorts_each_pass E w buffers :
  RenderContext.Buffers (Context w) = Some buffers →
  0 < RenderBuffers.Width buffers →
  SceneIndicesValid (SceneRenderTask.Scene (RenderContext.Task (Context w))) →
  (RenderInner E w).1 ≠ Aborted ∧
  ∃ evs,
    Trace (RenderInner E w).2 = Trace w ++ evs ∧
    SortEvents evs
    = [(false, GBuffer); (false, GBufferNoDecals); (true, Forward);
       (false, Distortion)] ∧
    ∀ reverseDistance listType,
      (reverseDistance, listType)
      ∈ [(false, GBuffer); (false, GBufferNoDecals); (true, Forward);
         (false, Distortion)] →
      let scene := SceneRenderTask.Scene (RenderContext.Task (Context w)) in
      let sorted :=
        RenderList.DrawCallsLists
          (RenderContext.List (Context (RenderInner E w).2)) listType in
      SortDrawCalls (Engine.GetHash E) (Engine.CanBatch E)
        (Engine.InstancingAchievable E) (SceneData.DrawCalls scene)
        reverseDistance (SceneData.DrawCallsLists scene listType)
      = Some sorted ∧
      AscendingKeys (Engine.GetHash E) (SceneData.DrawCalls scene)
        reverseDistance (DrawCallsList.Indices sorted) ∧
      DrawOrder sorted = DrawCallsList.Indices sorted.
Proof.
  intros Hb Hw Hvalid.
  pose proof (RenderInner_runs E w buffers Hb Hw Hvalid) as Hrun.
  split; [exact Hrun|].
  destruct (RenderInner_SortedFrame E w Hrun) as (evs & Ht & Hs & Hl).
  exists evs. split_and!; [done|done|].
  intros r ty Hin scene sorted. specialize (Hl r ty Hin). fold scene sorted in Hl.
  split_and!; [done| |].
  - by eapply SortDrawCalls_ascending.
  - by eapply SortDrawCalls_DrawOrder.
Qed.


(** C10. When the blended anti-aliasing mode is temporal anti-aliasing and
    the view is orthographic, a frame with buffers of positive width and a
    scene whose per-pass lists name collected draw calls fails no assertion,
    never runs the temporal anti-aliasing pass, and ends with the mode
    [None] in its settings. *)
Theorem RenderInner_no_TAA_in_orthographic E w buffers :
  RenderView.IsOrthographicProjection (RenderContext.View (Context w)) = true →
  PostProcessSettings.AntiAliasing_Mode (BlendedSettings E (Context w))
  = AntialiasingMode.TemporalAntialiasing →
  RenderContext.Buffers (Context w) = Some buffers →
  0 < RenderBuffers.Width buffers →
  SceneIndicesValid (SceneRenderTask.Scene (RenderContext.Task (Context w))) →
  (RenderInner E w).1 ≠ Aborted ∧
  ∃ evs,
    Trace (RenderInner E w).2 = Trace w ++ evs ∧
    (∀ input output, Run (TAARender input output) ∉ evs) ∧
    PostProcessSettings.AntiAliasing_Mode
      (RenderList.Settings (RenderContext.List (Context (RenderInner E w).2)))
    = AntialiasingMode.None.
Proof.
  intros Ho Hb Hbuf Hw Hvalid.
  pose proof (RenderInner_runs E w buffers Hbuf Hw Hvalid) as Hrun.
  split; [exact Hrun|].
  destruct (RenderInner_Downgraded E w Ho Hb Hrun) as (evs & Ht & Hf & Hm).
  exists evs. split_and!; [done| |done].
  intros input output Hin. rewrite Forall_forall in Hf. by apply Hf in Hin.
Qed.

(** ** The claims on the example frame *)

Lemma Example_scene_valid : SceneIndicesValid Example.scene.
Proof. intros ty. destruct ty; vm_compute; repeat constructor. Qed.

Lemma SortDrawCalls_batches_partition_witness :
  DrawCallsList.Indices Example.drawList ≠ [] ∧
  ∃ sorted,
    SortDrawCalls (Engine.GetHash Example.engine) (Engine.CanBatch Example.engine)
      (Engine.InstancingAchievable Example.engine) Example.calls false
      Example.drawList = Some sorted ∧
    DrawCallsList.Batches sorted ≠ [] ∧
    TotalSize (DrawCallsList.Batches sorted)
    = length (DrawCallsList.Indices sorted).
Proof.
  split; [discriminate|].
  destruct (SortDrawCalls_batches_partition
              (Engine.GetHash Example.engine) (Engine.CanBatch Example.engine)
              (Engine.InstancingAchievable Example.engine)
              Example.calls false Example.drawList)
    as (sorted & H1 & _ & H3 & _ & _ & _ & H7).
  - discriminate.
  - repeat constructor; simpl; lia.
  - exists sorted. split_and!; assumption.
Defined.


Lemma RenderInner_releases_scratch_targets_witness :
  RenderTargetPool.WellFormed (Pool (Example.world ViewMode.Default false 1)) ∧
  ∃ evs,
    Trace (RenderInner Example.engine (Example.world ViewMode.Default false 1)).2
    = [] ++ evs ∧
    Replay [] evs = Some [] ∧
    RenderTargetPool.Leased
      (Pool (RenderInner Example.engine (Example.world ViewMode.Default false 1)).2)
    = [Pooled 1; Pooled 0].
Proof.
  assert (Hwf : RenderTargetPool.WellFormed
                  (Pool (Example.world ViewMode.Default false 1))).
  { repeat constructor; simpl; lia. }
  split; [exact Hwf|].
  exact (RenderInner_releases_scratch_targets Example.engine
           (Example.world ViewMode.Default false 1) Hwf).
Defined.


Lemma GetFromPool_after_ReturnToPool_is_cleared_witness :
  RenderListPool.WellFormed Example.listPool ∧
  RenderList.DrawCalls (Example.fill RenderList.New) ≠ [] ∧
  ∃ l,
    RenderListPool.Heap
      (RenderListPool.GetFromPool
         (RenderListPool.ReturnToPool 0
            (RenderListPool.Mutate 0 Example.fill
               (RenderListPool.GetFromPool Example.listPool).2))).2 !! 0%nat
    = Some l ∧
    RenderList.DrawCalls l = [] ∧
    RenderList.IsCleared l.
Proof.
  assert (Hwf : RenderListPool.WellFormed Example.listPool).
  { repeat constructor. simpl. rewrite lookup_singleton_eq. eauto. }
  split; [exact Hwf|]. split; [discriminate|].
  destruct (GetFromPool_after_ReturnToPool_is_cleared Example.listPool Example.fill
              0%nat (RenderListPool.GetFromPool Example.listPool).2
              0%nat
              (RenderListPool.GetFromPool
                 (RenderListPool.ReturnToPool 0
                    (RenderListPool.Mutate 0 Example.fill
                       (RenderListPool.GetFromPool Example.listPool).2))).2
              Hwf eq_refl eq_refl)
    as (_ & l & H1 & H2 & _ & H4).
  exists l. split_and!; assumption.
Defined.

Lemma RenderInner_sorts_each_pass_witness :
  (RenderInner Example.engine (Example.world ViewMode.Default false 1)).1 ≠ Aborted ∧
  ∃ evs,
    Trace (RenderInner Example.engine (Example.world ViewMode.Default false 1)).2
    = [] ++ evs ∧
    SortEvents evs
    = [(false, GBuffer); (false, GBufferNoDecals); (true, Forward);
       (false, Distortion)].
Proof.
  destruct (RenderInner_sorts_each_pass Example.engine
              (Example.world ViewMode.Default false 1)
              (RenderBuffers.Build 1280 720) eq_refl eq_refl
              Example_scene_valid)
    as (Hrun & evs & H1 & H2 & _).
  split; [exact Hrun|].
  exists evs. split; assumption.
Defined.



Lemma RenderInner_no_TAA_in_orthographic_witness :
  RenderView.IsOrthographicProjection
    (RenderContext.View (Context (Example.world ViewMode.Default true 1))) = true ∧
  PostProcessSettings.AntiAliasing_Mode
    (BlendedSettings Example.engine (Context (Example.world ViewMode.Default true 1)))
  = AntialiasingMode.TemporalAntialiasing ∧
  (RenderInner Example.engine (Example.world ViewMode.Default true 1)).1 ≠ Aborted ∧
  PostProcessSettings.AntiAliasing_Mode
    (RenderList.Settings
       (RenderContext.List
          (Context (RenderInner Example.engine
                      (Example.world ViewMode.Default true 1)).2)))
  = AntialiasingMode.None.
Proof.
  destruct (RenderInner_no_TAA_in_orthographic Example.engine
              (Example.world ViewMode.Default true 1)
              (RenderBuffers.Build 1280 720) eq_refl eq_refl eq_refl eq_refl
              Example_scene_valid)
    as (Hrun & evs & _ & _ & H).
  split_and!; [reflexivity|reflexivity|exact Hrun|exact H].
Defined.
